(** * The changelog validator of [scripts/hooks/validate-changelog.py]

    A shallow embedding of the hook that checks [CHANGELOG.md] against the
    "Keep a Changelog" conventions, and the properties of its diagnostics.

    Layout: Python text and the [str] methods the script calls; the
    fragment of [re] the script's patterns are written in, as prioritised
    backtracking matchers; the seven numbered checks of
    [validate_changelog]; the printing part and the exit status; then the
    lemmas and the theorems. *)

From Stdlib Require Import List NArith Bool Ascii String Lia.
Import ListNotations.

Local Open Scope N_scope.
Local Open Scope list_scope.

(** ** Text *)

(** A Python [str] is a sequence of Unicode code points. *)
Definition char : Type := N.
Definition str : Type := list char.

(** An ASCII literal of the script, as code points. *)
Definition lit (s : string) : str := map N_of_ascii (list_ascii_of_string s).

Definition NL : char := 10.

(** A Python string literal with the escape [\n], as code points. *)
Fixpoint pystr (s : string) : str :=
  match s with
  | EmptyString => []
  | String "\" (String "n" s') => NL :: pystr s'
  | String c s' => N_of_ascii c :: pystr s'
  end.

(** [a == b] on text. *)
Fixpoint str_eqb (a b : str) : bool :=
  match a, b with
  | [], [] => true
  | x :: a', y :: b' => (x =? y) && str_eqb a' b'
  | _, _ => false
  end.

(** [s.startswith(prefix)] *)
Fixpoint startswith (prefix s : str) : bool :=
  match prefix, s with
  | [], _ => true
  | p :: prefix', c :: s' => (p =? c) && startswith prefix' s'
  | _ :: _, [] => false
  end.

(** [sub in s] *)
Fixpoint contains (sub s : str) : bool :=
  startswith sub s ||
  match s with
  | [] => false
  | _ :: s' => contains sub s'
  end.

(** [s.split(sep)] for a one-character separator. *)
Fixpoint split (sep : char) (s : str) : list str :=
  match s with
  | [] => [[]]
  | c :: s' =>
      if c =? sep then [] :: split sep s'
      else match split sep s' with
           | l :: ls => (c :: l) :: ls
           | [] => [[c]]
           end
  end.

(** [sep.join(parts)] *)
Fixpoint join (sep : str) (parts : list str) : str :=
  match parts with
  | [] => []
  | [p] => p
  | p :: ps => p ++ sep ++ join sep ps
  end.

(** [x in xs] for a list of texts. *)
Definition mem (x : str) (xs : list str) : bool := existsb (str_eqb x) xs.

(** Truthiness of a sequence: [if xs], [if not xs]. *)
Definition truthy {A : Type} (xs : list A) : bool :=
  match xs with [] => false | _ :: _ => true end.

(** ** Exceptions *)

Inductive exn : Type := IndexError | FileNotFoundError.

Inductive outcome (A : Type) : Type :=
| Returns (a : A)
| Raises (e : exn).
Arguments Returns {A} a.
Arguments Raises {A} e.

(** [xs[i]] *)
Definition index {A : Type} (xs : list A) (i : nat) : outcome A :=
  match nth_error xs i with
  | Some x => Returns x
  | None => Raises IndexError
  end.

(** ** Character classes of [re] on [str] patterns

    On code points below 128 the classes are fixed by the language; above,
    they are read from the interpreter's Unicode database, which is not
    part of the repository and is therefore a parameter of the model. *)

Record unicode_db : Type := {
  uni_isspace : char -> bool;     (* whitespace, code points >= 128 *)
  uni_isdecimal : char -> bool;   (* category Nd, code points >= 128 *)
  uni_isalnum : char -> bool      (* alphanumeric, code points >= 128 *)
}.

(** The database in which no code point from 128 on is in any class. *)
Definition ascii_db : unicode_db :=
  {| uni_isspace := fun _ => false;
     uni_isdecimal := fun _ => false;
     uni_isalnum := fun _ => false |}.

Definition between (lo hi c : char) : bool := (lo <=? c) && (c <=? hi).

Section Classes.
Variable db : unicode_db.

(** [\s] *)
Definition is_space (c : char) : bool :=
  if c <? 128 then between 9 13 c || between 28 32 c
  else uni_isspace db c.

(** [\S] *)
Definition is_nonspace (c : char) : bool := negb (is_space c).

(** [\d] *)
Definition is_digit (c : char) : bool :=
  if c <? 128 then between 48 57 c
  else uni_isdecimal db c.

(** [\w] *)
Definition is_word (c : char) : bool :=
  if c <? 128 then
    between 48 57 c || between 65 90 c || between 97 122 c || (c =? 95)
  else uni_isalnum db c.
End Classes.

(** [[^\]]] *)
Definition not_rbracket (c : char) : bool := negb (c =? 93).

(** [[\*\+]] *)
Definition star_or_plus (c : char) : bool := (c =? 42) || (c =? 43).

(** ** Backtracking matchers

    A matcher maps the text at the current position to the list of ways it
    can match there, each a value and the text that remains, in the order
    in which the backtracking engine tries them.  The engine's answer is
    the first element. *)

Definition matcher (A : Type) : Type := str -> list (A * str).

Definition ret {A : Type} (a : A) : matcher A := fun s => [(a, s)].

Definition bind {A B : Type} (m : matcher A) (f : A -> matcher B) : matcher B :=
  fun s => flat_map (fun r => f (fst r) (snd r)) (m s).

Notation "x <- m ;; k" := (bind m (fun x => k))
  (at level 61, m at next level, right associativity).
Notation "m ;;; k" := (bind m (fun _ => k))
  (at level 61, right associativity).

(** One character of a class. *)
Definition one (P : char -> bool) : matcher str :=
  fun s => match s with
           | c :: s' => if P c then [([c], s')] else []
           | [] => []
           end.

(** A literal. *)
Fixpoint literal (l : str) : matcher str :=
  fun s => match l with
           | [] => [([], s)]
           | x :: l' =>
               match s with
               | c :: s' =>
                   if x =? c
                   then map (fun r => (x :: fst r, snd r)) (literal l' s')
                   else []
               | [] => []
               end
           end.

(** [X+], greedy, for a character class [X]: longest first. *)
Fixpoint many1 (P : char -> bool) (s : str) : list (str * str) :=
  match s with
  | c :: s' =>
      if P c
      then map (fun r => (c :: fst r, snd r)) (many1 P s') ++ [([c], s')]
      else []
  | [] => []
  end.

(** [X{n}] for a character class [X]. *)
Fixpoint count (n : nat) (P : char -> bool) : matcher str :=
  fun s => match n with
           | O => [([], s)]
           | S n' =>
               match s with
               | c :: s' =>
                   if P c
                   then map (fun r => (c :: fst r, snd r)) (count n' P s')
                   else []
               | [] => []
               end
           end.

(** [.*?] under [re.DOTALL]: lazy, shortest first. *)
Fixpoint lazy_any (s : str) : list (str * str) :=
  ([], s) ::
  match s with
  | c :: s' => map (fun r => (c :: fst r, snd r)) (lazy_any s')
  | [] => []
  end.

(** [(?:R)?], greedy: with [R] first, then without. *)
Definition optional {A : Type} (m : matcher A) : matcher (option A) :=
  fun s => map (fun r => (Some (fst r), snd r)) (m s) ++ [(None, s)].

(** [R|S] *)
Definition alt {A : Type} (m1 m2 : matcher A) : matcher A :=
  fun s => m1 s ++ m2 s.

(** [(?=R)] *)
Definition lookahead {A : Type} (m : matcher A) : matcher unit :=
  fun s => match m s with
           | [] => []
           | _ :: _ => [(tt, s)]
           end.

(** [^] under [re.MULTILINE]; [bol] says whether the current position is
    the start of the text or follows a newline. *)
Definition caret (bol : bool) : matcher unit :=
  fun s => if bol then [(tt, s)] else [].

(** [$] without [re.MULTILINE]: at the end of the text, or just before a
    newline that ends the text. *)
Definition dollar : matcher unit :=
  fun s => match s with
           | [] => [(tt, s)]
           | [c] => if c =? NL then [(tt, s)] else []
           | _ => []
           end.

(** The engine's answer at one position. *)
Definition first_match {A : Type} (rs : list (A * str)) : option (A * str) :=
  match rs with
  | [] => None
  | r :: _ => Some r
  end.

(** [re.match(p, s)]: at the start of the text only. *)
Definition re_match {A : Type} (p : bool -> matcher A) (s : str) : option A :=
  option_map fst (first_match (p true s)).

(** [re.search(p, s)]: the first position, left to right, where [p] matches. *)
Fixpoint re_search_from {A : Type} (p : bool -> matcher A) (bol : bool) (s : str)
  : option A :=
  match first_match (p bol s) with
  | Some r => Some (fst r)
  | None =>
      match s with
      | c :: s' => re_search_from p (c =? NL) s'
      | [] => None
      end
  end.

Definition re_search {A : Type} (p : bool -> matcher A) (s : str) : option A :=
  re_search_from p true s.

(** [p.findall(s)]: the matches left to right, each search resuming where
    the previous match ended.  [skip] counts the characters of the last
    match that are still to be passed over.  (The script's patterns all
    begin with a literal, so a match is never empty.) *)
Fixpoint findall_from {A : Type} (p : bool -> matcher A) (skip : nat) (bol : bool)
  (s : str) : list A :=
  match skip with
  | S k =>
      match s with
      | c :: s' => findall_from p k (c =? NL) s'
      | [] => []
      end
  | O =>
      match first_match (p bol s) with
      | Some r =>
          fst r ::
          match s with
          | c :: s' =>
              findall_from p (List.length s' - List.length (snd r)) (c =? NL) s'
          | [] => []
          end
      | None =>
          match s with
          | c :: s' => findall_from p O (c =? NL) s'
          | [] => []
          end
      end
  end.

Definition findall {A : Type} (p : bool -> matcher A) (s : str) : list A :=
  findall_from p O true s.

(** ** The script *)

(** ANSI color codes *)
Definition RED : str := 27 :: lit "[0;31m".
Definition GREEN : str := 27 :: lit "[0;32m".
Definition YELLOW : str := 27 :: lit "[1;33m".
Definition NC : str := 27 :: lit "[0m".

Definition VALID_CATEGORIES : list str :=
  [lit "Added"; lit "Changed"; lit "Deprecated"; lit "Removed"; lit "Fixed";
   lit "Security"].

(** *** The patterns *)

Section Patterns.
Variable db : unicode_db.

(** [\d{4}-\d{2}-\d{2}] *)
Definition date_re : matcher str :=
  y <- count 4 (is_digit db) ;;
  d1 <- literal (lit "-") ;;
  m <- count 2 (is_digit db) ;;
  d2 <- literal (lit "-") ;;
  d <- count 2 (is_digit db) ;;
  ret (y ++ d1 ++ m ++ d2 ++ d).

(** [^## \[([^\]]+)\](?:\s+-\s+(\d{4}-\d{2}-\d{2}))?] under
    [re.MULTILINE].  The value is the pair of groups; a group that took
    no part in the match is reported as the empty text. *)
Definition version_pattern (bol : bool) : matcher (str * str) :=
  caret bol ;;;
  literal (lit "## [") ;;;
  version <- many1 not_rbracket ;;
  literal (lit "]") ;;;
  date <- optional (many1 (is_space db) ;;;
                    literal (lit "-") ;;;
                    many1 (is_space db) ;;;
                    date_re) ;;
  ret (version, match date with Some d => d | None => [] end).

(** [## \[Unreleased\](.*?)(?=## \[|$)] under [re.DOTALL]; the value is
    group 1. *)
Definition unreleased_re (bol : bool) : matcher str :=
  literal (lit "## [Unreleased]") ;;;
  body <- lazy_any ;;
  lookahead (alt (literal (lit "## [") ;;; ret tt) dollar) ;;;
  ret body.

(** [^### (\w+)] under [re.MULTILINE]; the value is group 1. *)
Definition category_pattern (bol : bool) : matcher str :=
  caret bol ;;;
  literal (lit "### ") ;;;
  name <- many1 (is_word db) ;;
  ret name.

(** [^- \S] under [re.MULTILINE] *)
Definition entry_re (bol : bool) : matcher unit :=
  caret bol ;;;
  literal (lit "- ") ;;;
  one (is_nonspace db) ;;;
  ret tt.

(** [^[\*\+] ] under [re.MULTILINE] *)
Definition other_marker_re (bol : bool) : matcher unit :=
  caret bol ;;;
  one star_or_plus ;;;
  literal (lit " ") ;;;
  ret tt.

(** [^\[Unreleased\]: https?://] under [re.MULTILINE] *)
Definition unreleased_link_re (bol : bool) : matcher unit :=
  caret bol ;;;
  literal (lit "[Unreleased]: http") ;;;
  optional (literal (lit "s")) ;;;
  literal (lit "://") ;;;
  ret tt.

(** *** The messages *)

Definition msg_header : str := lit "First line must be '# Changelog'".
Definition msg_no_keepachangelog : str := lit "Missing Keep a Changelog reference".
Definition msg_no_semver : str := lit "Missing Semantic Versioning reference".
Definition msg_no_versions : str :=
  lit "No version sections found (expected at least ## [Unreleased])".
Definition msg_no_unreleased : str := lit "Missing ## [Unreleased] section".
Definition msg_missing_date (version : str) : str :=
  lit "Version [" ++ version ++ lit "] is missing a date".
Definition msg_invalid_date (version date : str) : str :=
  lit "Version [" ++ version ++ lit "] has invalid date format: " ++ date
    ++ lit " (expected YYYY-MM-DD)".
Definition msg_no_categories : str :=
  lit "[Unreleased] section has no categories (Added/Changed/Fixed/etc.)".
Definition msg_invalid_categories (invalid_categories : list str) : str :=
  lit "Invalid categories in [Unreleased]: " ++ join (lit ", ") invalid_categories.
Definition msg_valid_categories : str :=
  lit "Valid categories: " ++ join (lit ", ") VALID_CATEGORIES.
Definition msg_empty_unreleased : str :=
  lit "[Unreleased] section appears to be empty (no bullet points)".
Definition msg_list_marker : str := lit "Use '- ' for lists, not '* ' or '+ '".
Definition msg_no_link : str := lit "Missing comparison link for [Unreleased]".

(** *** The checks

    Each check returns what it appends to [errors] and to
    [warnings_list], in the order of the appends. *)

(** 1. Check first line is "# Changelog" *)
Definition check_header (lines : list str) : outcome (list str) :=
  match index lines 0 with
  | Raises e => Raises e
  | Returns line0 =>
      Returns (if negb (startswith (lit "# Changelog") line0)
               then [msg_header] else [])
  end.

(** 2. Check for Keep a Changelog reference *)
Definition check_keepachangelog (content : str) : list str :=
  if negb (contains (lit "keepachangelog.com") content)
  then [msg_no_keepachangelog] else [].

(** 3. Check for Semantic Versioning reference *)
Definition check_semver (content : str) : list str :=
  if negb (contains (lit "semver.org") content)
  then [msg_no_semver] else [].

(** 4. Find all version sections *)
Definition find_versions (content : str) : list (str * str) :=
  findall version_pattern content.

(** The body of the loop over [versions]: the warnings, then the errors. *)
Definition check_version (v : str * str) : list str * list str :=
  let (version, date) := v in
  (if negb (str_eqb version (lit "Unreleased")) && negb (truthy date)
   then [msg_missing_date version] else [],
   if truthy date &&
      negb (match re_match (fun _ => date_re) date with
            | Some _ => true
            | None => false
            end)
   then [msg_invalid_date version date] else []).

Definition check_versions (versions : list (str * str)) : list str * list str :=
  if negb (truthy versions) then ([], [msg_no_versions])
  else
    (flat_map (fun v => fst (check_version v)) versions,
     (if negb (existsb (fun v => str_eqb (fst v) (lit "Unreleased")) versions)
      then [msg_no_unreleased] else [])
     ++ flat_map (fun v => snd (check_version v)) versions).

(** 5. Check for valid categories under [Unreleased], given group 1 of
    the match. *)
Definition check_unreleased_content (unreleased_content : str) : list str :=
  let categories := findall category_pattern unreleased_content in
  if negb (truthy categories) then [msg_no_categories]
  else
    let invalid_categories :=
      filter (fun c => negb (mem c VALID_CATEGORIES)) categories in
    (if truthy invalid_categories
     then [msg_invalid_categories invalid_categories; msg_valid_categories]
     else [])
    ++
    (let has_entries :=
       match re_search entry_re unreleased_content with
       | Some _ => true
       | None => false
       end in
     if negb has_entries then [msg_empty_unreleased] else []).

Definition check_unreleased (content : str) : list str :=
  match re_search unreleased_re content with
  | Some unreleased_content => check_unreleased_content unreleased_content
  | None => []
  end.

(** 6. Check for proper list formatting *)
Definition check_list_markers (content : str) : list str :=
  match re_search other_marker_re content with
  | Some _ => [msg_list_marker]
  | None => []
  end.

(** 7. Check for comparison links at bottom *)
Definition check_comparison_link (versions : list (str * str)) (content : str)
  : list str :=
  if truthy versions && Nat.ltb 1 (List.length versions)
  then match re_search unreleased_link_re content with
       | Some _ => []
       | None => [msg_no_link]
       end
  else [].

(** The part of [validate_changelog] between reading the file and
    printing: the final [(errors, warnings_list)]. *)
Definition diagnostics (content : str) : outcome (list str * list str) :=
  let lines := split NL content in
  match check_header lines with
  | Raises e => Raises e
  | Returns header_errors =>
      let versions := find_versions content in
      let (version_warnings, version_errors) := check_versions versions in
      Returns
        (header_errors ++ version_errors,
         check_keepachangelog content ++ check_semver content
           ++ version_warnings
           ++ check_unreleased content
           ++ check_list_markers content
           ++ check_comparison_link versions content)
  end.
End Patterns.

(** ** Standard output, the file and the process

    A computation of the script takes the lines printed so far and gives
    its outcome together with the lines printed by the end. *)

Definition IO (A : Type) : Type := list str -> outcome A * list str.

Definition io_ret {A : Type} (a : A) : IO A := fun out => (Returns a, out).

Definition io_bind {A B : Type} (m : IO A) (f : A -> IO B) : IO B :=
  fun out =>
    match m out with
    | (Returns a, out') => f a out'
    | (Raises e, out') => (Raises e, out')
    end.

Notation "x <~ m ;; k" := (io_bind m (fun x => k))
  (at level 61, m at next level, right associativity).
Notation "m >> k" := (io_bind m (fun _ => k))
  (at level 61, right associativity).

(** A pure step that may raise. *)
Definition lift {A : Type} (o : outcome A) : IO A := fun out => (o, out).

(** [print(line)] *)
Definition print (line : str) : IO unit := fun out => (Returns tt, out ++ [line]).

(** [for x in xs: body(x)] *)
Fixpoint for_each {A : Type} (xs : list A) (body : A -> IO unit) : IO unit :=
  match xs with
  | [] => io_ret tt
  | x :: xs' => body x >> for_each xs' body
  end.

(** The three message styles.  The decorations are U+274C, U+26A0 U+FE0F
    and U+2705. *)
Definition error_line (msg : str) : str := RED ++ [10060] ++ lit " " ++ msg ++ NC.
Definition warning_line (msg : str) : str :=
  YELLOW ++ [9888; 65039] ++ lit "  " ++ msg ++ NC.
Definition success_line (msg : str) : str := GREEN ++ [9989] ++ lit " " ++ msg ++ NC.

Definition error (msg : str) : IO unit := print (error_line msg).
Definition warning (msg : str) : IO unit := print (warning_line msg).
Definition success (msg : str) : IO unit := print (success_line msg).

(** What [Path('CHANGELOG.md')] denotes when the script runs: no file, or
    a file with its decoded text. *)
Definition Path : Type := option str.

(** [path.exists()] *)
Definition path_exists (p : Path) : bool :=
  match p with Some _ => true | None => false end.

(** [path.read_text()] *)
Definition read_text (p : Path) : outcome str :=
  match p with
  | Some content => Returns content
  | None => Raises FileNotFoundError
  end.

Section Script.
Variable db : unicode_db.

Definition validate_changelog (changelog_path : Path) : IO bool :=
  if negb (path_exists changelog_path) then
    error (lit "CHANGELOG.md not found") >>
    io_ret false
  else
    content <~ lift (read_text changelog_path) ;;
    print (128269 :: lit " Validating CHANGELOG.md format...") >>
    d <~ lift (diagnostics db content) ;;
    let errors := fst d in
    let warnings_list := snd d in
    (* Print results *)
    print [] >>
    for_each warnings_list warning >>
    if truthy errors then
      print [] >>
      for_each errors error >>
      print [] >>
      error (lit "CHANGELOG.md validation failed") >>
      io_ret false
    else
      (if truthy warnings_list then
         print [] >>
         warning (lit "CHANGELOG.md has warnings but is valid")
       else
         print [] >>
         success (lit "CHANGELOG.md format is valid")) >>
      io_ret true.

(** [sys.exit(0 if validate_changelog(changelog_path) else 1)]: the exit
    status of the process.  An exception that nobody catches ends the
    process with status 1. *)
Definition main (changelog_path : Path) (out : list str) : N * list str :=
  match validate_changelog changelog_path out with
  | (Returns ok, out') => (if ok then 0 else 1, out')
  | (Raises _, out') => (1, out')
  end.
End Script.

(** ** Notions the properties are stated with *)

(** Four digits, a dash, two digits, a dash, two digits. *)
Definition date_shaped (db : unicode_db) (date : str) : Prop :=
  exists y m d,
    date = y ++ lit "-" ++ m ++ lit "-" ++ d /\
    List.length y = 4%nat /\ List.length m = 2%nat /\ List.length d = 2%nat /\
    forallb (is_digit db) y = true /\
    forallb (is_digit db) m = true /\
    forallb (is_digit db) d = true.

(** The first line of a text: what precedes its first newline. *)
Fixpoint first_line (s : str) : str :=
  match s with
  | [] => []
  | c :: s' => if c =? NL then [] else c :: first_line s'
  end.

(** The labels of the version sections that are Unreleased ones. *)
Definition unreleased_sections (versions : list (str * str)) : list (str * str) :=
  filter (fun v => str_eqb (fst v) (lit "Unreleased")) versions.

(** Whether the position after [pre] starts a line, given whether the
    position before [pre] does: [pre] is empty, or ends with a newline. *)
Fixpoint bol_after (bol : bool) (pre : str) : bool :=
  match pre with
  | [] => bol
  | c :: pre' => bol_after (c =? NL) pre'
  end.

(** [pat] occurs somewhere in [text]. *)
Definition occurs (pat text : str) : Prop :=
  exists pre post, text = pre ++ pat ++ post.

(** [pat] occurs in [text] at the start of a line. *)
Definition occurs_at_line_start (pat text : str) : Prop :=
  exists pre post, text = pre ++ pat ++ post /\ bol_after true pre = true.

(** The category names found in a text that are not valid ones, as the
    script lists them. *)
Definition invalid_categories_of (db : unicode_db) (text : str) : list str :=
  filter (fun c => negb (mem c VALID_CATEGORIES)) (findall (category_pattern db) text).

(** A text of ASCII characters only. *)
Definition ascii_only (s : str) : bool := forallb (fun c => c <? 128) s.

(** The text before and the text after the first occurrence of [sub] in
    [s], if there is one. *)
Fixpoint find_first (sub s : str) : option (str * str) :=
  if startswith sub s then Some ([], skipn (List.length sub) s)
  else match s with
       | [] => None
       | c :: s' =>
           match find_first sub s' with
           | Some (before, after) => Some (c :: before, after)
           | None => None
           end
       end.

(** Where the text examined for the Unreleased section stops: at an
    occurrence of [## [], at the end of the text, or at a newline that
    ends the text. *)
Definition section_ends (s : str) : bool :=
  startswith (lit "## [") s ||
  match s with
  | [] => true
  | [c] => c =? NL
  | _ => false
  end.

(** The text from the current position up to the first position where
    [section_ends] holds. *)
Fixpoint unreleased_body (s : str) : str :=
  if section_ends s then []
  else match s with
       | [] => []
       | c :: s' => c :: unreleased_body s'
       end.

(** The reading of the Unreleased section by lines: the text after the
    first line that starts with [## [Unreleased]], up to the next line
    that starts with [## [], or to the end. *)
Fixpoint upto_next_section_line (bol : bool) (s : str) : str :=
  match s with
  | [] => []
  | c :: s' =>
      if bol && startswith (lit "## [") s then []
      else c :: upto_next_section_line (c =? NL) s'
  end.

Fixpoint unreleased_by_lines_from (bol : bool) (s : str) : option str :=
  if bol && startswith (lit "## [Unreleased]") s
  then Some (upto_next_section_line false (skipn 15 s))
  else match s with
       | [] => None
       | c :: s' => unreleased_by_lines_from (c =? NL) s'
       end.

Definition unreleased_by_lines (content : str) : option str :=
  unreleased_by_lines_from true content.

(** The tail of [unreleased_re] after the literal: the lazy group and the
    lookahead. *)
Definition body_then_end : matcher str :=
  body <- lazy_any ;;
  lookahead (alt (literal (lit "## [") ;;; ret tt) dollar) ;;;
  ret body.

(** The warnings the script has a message for. *)
Definition known_warning (w : str) : Prop :=
  w = msg_no_keepachangelog \/
  w = msg_no_semver \/
  (exists version, w = msg_missing_date version) \/
  w = msg_no_categories \/
  (exists invalid_categories, w = msg_invalid_categories invalid_categories) \/
  w = msg_valid_categories \/
  w = msg_empty_unreleased \/
  w = msg_list_marker \/
  w = msg_no_link.

(** Everything a run on an existing file prints, given the final
    [errors] and [warnings_list]; the first line is the banner, which
    starts with U+1F50D. *)
Definition printed (errors warnings_list : list str) : list str :=
  [128269 :: lit " Validating CHANGELOG.md format..."; []]
  ++ map warning_line warnings_list
  ++ (if truthy errors
      then [[]] ++ map error_line errors
           ++ [[]; error_line (lit "CHANGELOG.md validation failed")]
      else if truthy warnings_list
           then [[]; warning_line (lit "CHANGELOG.md has warnings but is valid")]
           else [[]; success_line (lit "CHANGELOG.md format is valid")]).

(** * Facts about the matchers *)

Lemma in_bind {A B : Type} (m : matcher A) (f : A -> matcher B) s b r :
  In (b, r) (bind m f s) <->
  exists a s1, In (a, s1) (m s) /\ In (b, r) (f a s1).
Proof.
  unfold bind. rewrite in_flat_map. split.
  - intros [[a s1] [Hm Hf]]. now exists a, s1.
  - intros (a & s1 & Hm & Hf). now exists (a, s1).
Qed.

Lemma in_ret {A : Type} (a b : A) s r : In (b, r) (ret a s) <-> b = a /\ r = s.
Proof.
  unfold ret. simpl. split.
  - intros [E | []]. now inversion E.
  - intros [-> ->]. now left.
Qed.

Lemma in_caret bol s u r : In (u, r) (caret bol s) <-> bol = true /\ r = s.
Proof.
  unfold caret. destruct bol; simpl; split.
  - intros [E | []]. now inversion E.
  - intros [_ ->]. destruct u. now left.
  - intros [].
  - intros [E _]. discriminate.
Qed.

Lemma in_cons_map (c : char) (rs : list (str * str)) x r :
  In (x, r) (map (fun q => (c :: fst q, snd q)) rs) <->
  exists x', x = c :: x' /\ In (x', r) rs.
Proof.
  rewrite in_map_iff. split.
  - intros [[x' r'] [E Hin]]. simpl in E. inversion E; subst. now exists x'.
  - intros (x' & -> & Hin). now exists (x', r).
Qed.

Lemma in_one P s x r :
  In (x, r) (one P s) <-> exists c, x = [c] /\ s = c :: r /\ P c = true.
Proof.
  unfold one. destruct s as [|c s'].
  - split; [intros [] | intros (c & _ & E & _); discriminate].
  - destruct (P c) eqn:HP; simpl; split.
    + intros [E | []]. inversion E; subst. now exists c.
    + intros (c' & -> & E & _). inversion E; subst. now left.
    + intros [].
    + intros (c' & _ & E & HP'). inversion E; subst. congruence.
Qed.

Lemma in_literal l : forall s x r, In (x, r) (literal l s) <-> x = l /\ s = l ++ r.
Proof.
  induction l as [|a l IH]; intros s x r; simpl.
  - split.
    + intros [E | []]. now inversion E.
    + intros [-> ->]. now left.
  - destruct s as [|c s'].
    + split; [intros [] | intros [_ E]; discriminate].
    + destruct (N.eqb_spec a c) as [<- | Hne].
      * rewrite in_cons_map. split.
        -- intros (x' & -> & Hin). apply IH in Hin as [-> ->]. now split.
        -- intros [-> E]. inversion E; subst. exists l. split; [easy|]. now apply IH.
      * split; [intros [] | intros [_ E]; inversion E; congruence].
Qed.

Lemma literal_app l r : literal l (l ++ r) = [(l, r)].
Proof.
  induction l as [|a l IH]; simpl; [reflexivity|].
  now rewrite N.eqb_refl, IH.
Qed.

Lemma literal_startswith l : forall s, literal l s = [] <-> startswith l s = false.
Proof.
  induction l as [|a l IH]; intros s; simpl.
  - split; discriminate.
  - destruct s as [|c s']; [easy|].
    destruct (a =? c); simpl; [|easy].
    rewrite <- IH. destruct (literal l s'); simpl; split; easy.
Qed.

Lemma startswith_app l r : startswith l (l ++ r) = true.
Proof.
  induction l as [|a l IH]; simpl; [reflexivity|]. now rewrite N.eqb_refl.
Qed.

Lemma startswith_inv l : forall s, startswith l s = true -> exists r, s = l ++ r.
Proof.
  induction l as [|a l IH]; intros s H; simpl in *.
  - now exists s.
  - destruct s as [|c s']; [discriminate|].
    apply andb_prop in H as [Hc Hs]. apply N.eqb_eq in Hc as <-.
    destruct (IH _ Hs) as [r ->]. now exists r.
Qed.

Lemma in_many1 P : forall s x r,
  In (x, r) (many1 P s) -> s = x ++ r /\ x <> [] /\ forallb P x = true.
Proof.
  induction s as [|c s IH]; intros x r H; simpl in H; [easy|].
  destruct (P c) eqn:HP; [|easy].
  apply in_app_or in H as [H | [E | []]].
  - apply in_cons_map in H as (x' & -> & Hin).
    destruct (IH _ _ Hin) as (-> & _ & Hall).
    simpl. now rewrite HP, Hall.
  - inversion E; subst. simpl. now rewrite HP.
Qed.

Lemma in_count P : forall n s x r,
  In (x, r) (count n P s) <->
  s = x ++ r /\ List.length x = n /\ forallb P x = true.
Proof.
  induction n as [|n IH]; intros s x r; simpl.
  - split.
    + intros [E | []]. now inversion E.
    + intros (-> & Hlen & _). destruct x; [now left | discriminate].
  - destruct s as [|c s'].
    + split; [intros [] |].
      intros (E & Hlen & _). destruct x; discriminate.
    + destruct (P c) eqn:HP.
      * rewrite in_cons_map. split.
        -- intros (x' & -> & Hin). apply IH in Hin as (-> & <- & Hall).
           simpl. now rewrite HP, Hall.
        -- intros (E & Hlen & Hall). destruct x as [|c' x']; [discriminate|].
           simpl in *. inversion E; subst. rewrite HP in Hall. simpl in Hall.
           exists x'. split; [easy|]. apply IH. repeat split; [lia | easy].
      * split; [intros [] |].
        intros (E & Hlen & Hall). destruct x as [|c' x']; [discriminate|].
        simpl in *. inversion E; subst. now rewrite HP in Hall.
Qed.

Lemma count_app P n x r :
  List.length x = n -> forallb P x = true -> count n P (x ++ r) = [(x, r)].
Proof.
  intros <-. induction x as [|c x IH]; simpl; intros H; [reflexivity|].
  apply andb_prop in H as [Hc Hx]. now rewrite Hc, IH.
Qed.

Lemma bind_single {A B : Type} (m : matcher A) (f : A -> matcher B) s a s1 :
  m s = [(a, s1)] -> bind m f s = f a s1.
Proof. unfold bind. intros ->. simpl. apply app_nil_r. Qed.

Lemma bind_none {A B : Type} (m : matcher A) (f : A -> matcher B) s :
  m s = [] -> bind m f s = [].
Proof. unfold bind. now intros ->. Qed.

Lemma flat_map_nil {A B : Type} (f : A -> list B) l :
  (forall x, In x l -> f x = []) -> flat_map f l = [].
Proof.
  induction l as [|a l IH]; intros H; simpl; [reflexivity|].
  rewrite (H a) by now left. apply IH. intros x Hx. apply H. now right.
Qed.

Lemma in_optional {A : Type} (m : matcher A) s o r :
  In (o, r) (optional m s) <->
  (exists a, o = Some a /\ In (a, r) (m s)) \/ (o = None /\ r = s).
Proof.
  unfold optional. rewrite in_app_iff, in_map_iff. simpl. split.
  - intros [[[a r'] [E Hin]] | [E | []]].
    + simpl in E. inversion E; subst. left. now exists a.
    + inversion E; subst. now right.
  - intros [(a & -> & Hin) | [-> ->]].
    + left. now exists (a, r).
    + right. now left.
Qed.

Lemma first_match_in {A : Type} (rs : list (A * str)) r :
  first_match rs = Some r -> In r rs.
Proof. destruct rs; simpl; [discriminate|]. intros E. inversion E. now left. Qed.

(** Every element of [findall] is the engine's answer at some position of
    the text, tried with the line-start flag of that position. *)
Lemma findall_from_in {A : Type} (p : bool -> matcher A) x :
  forall s skip bol,
    In x (findall_from p skip bol s) ->
    exists pre s' r,
      s = pre ++ s' /\ first_match (p (bol_after bol pre) s') = Some (x, r).
Proof.
  induction s as [|c s IH]; intros skip bol H.
  - destruct skip; simpl in H; [|easy].
    destruct (first_match (p bol [])) as [[a r]|] eqn:E; [|easy].
    destruct H as [<- | []]. now exists [], [], r.
  - destruct skip as [|k]; simpl in H.
    + destruct (first_match (p bol (c :: s))) as [[a r]|] eqn:E.
      * destruct H as [<- | H].
        -- now exists [], (c :: s), r.
        -- simpl in H. apply IH in H as (pre & s' & r' & -> & Hm).
           now exists (c :: pre), s', r'.
      * apply IH in H as (pre & s' & r' & -> & Hm).
        now exists (c :: pre), s', r'.
    + apply IH in H as (pre & s' & r' & -> & Hm).
      now exists (c :: pre), s', r'.
Qed.

(** * Facts about the patterns and the checks *)

Lemma str_eqb_eq a : forall b, str_eqb a b = true <-> a = b.
Proof.
  induction a as [|x a IH]; intros [|y b]; simpl; try easy.
  rewrite andb_true_iff, N.eqb_eq, IH. split.
  - now intros [-> ->].
  - intros E. now inversion E.
Qed.

Lemma in_date_re db s date r :
  In (date, r) (date_re db s) -> date_shaped db date /\ s = date ++ r.
Proof.
  unfold date_re. intros H.
  apply in_bind in H as (y & s1 & Hy & H).
  apply in_bind in H as (d1 & s2 & Hd1 & H).
  apply in_bind in H as (m & s3 & Hm & H).
  apply in_bind in H as (d2 & s4 & Hd2 & H).
  apply in_bind in H as (d & s5 & Hd & H).
  apply in_ret in H as [-> ->].
  apply in_count in Hy as (-> & Ly & Dy).
  apply in_literal in Hd1 as [-> ->].
  apply in_count in Hm as (-> & Lm & Dm).
  apply in_literal in Hd2 as [-> ->].
  apply in_count in Hd as (-> & Ld & Dd).
  split.
  - now exists y, m, d.
  - now rewrite <- !app_assoc.
Qed.

Lemma date_re_shaped db date r :
  date_shaped db date -> date_re db (date ++ r) = [(date, r)].
Proof.
  intros (y & m & d & -> & Ly & Lm & Ld & Dy & Dm & Dd).
  unfold date_re. rewrite <- !app_assoc.
  erewrite bind_single by (apply count_app; eassumption).
  erewrite bind_single by apply literal_app.
  erewrite bind_single by (apply count_app; eassumption).
  erewrite bind_single by apply literal_app.
  erewrite bind_single by (apply count_app; eassumption).
  reflexivity.
Qed.

(** [re.match(r'\d{4}-\d{2}-\d{2}', date)] succeeds on a date-shaped text. *)
Lemma re_match_date_shaped db date :
  date_shaped db date -> re_match (fun _ => date_re db) date = Some date.
Proof.
  intros H. unfold re_match.
  rewrite <- (app_nil_r date) at 1. now rewrite date_re_shaped.
Qed.

(** What a match of the section pattern looks like. *)
Lemma in_version_pattern db bol s version date r :
  In ((version, date), r) (version_pattern db bol s) ->
  bol = true /\
  version <> [] /\
  (date = [] \/ date_shaped db date) /\
  exists mid, s = lit "## [" ++ version ++ lit "]" ++ mid ++ r.
Proof.
  unfold version_pattern. intros H.
  apply in_bind in H as (u & s0 & Hc & H). apply in_caret in Hc as [-> ->].
  apply in_bind in H as (h & s1 & Hh & H). apply in_literal in Hh as [-> ->].
  apply in_bind in H as (v & s2 & Hv & H). apply in_many1 in Hv as (-> & Hne & _).
  apply in_bind in H as (b & s3 & Hb & H). apply in_literal in Hb as [-> ->].
  apply in_bind in H as (o & s4 & Ho & H). apply in_ret in H as [E ->].
  inversion E; subst; clear E.
  split; [reflexivity|]. split; [assumption|].
  apply in_optional in Ho as [(d & -> & Hd) | [-> ->]].
  - apply in_bind in Hd as (w1 & t1 & Hw1 & Hd).
    apply in_many1 in Hw1 as (-> & _ & _).
    apply in_bind in Hd as (dash & t2 & Hdash & Hd).
    apply in_literal in Hdash as [-> ->].
    apply in_bind in Hd as (w2 & t3 & Hw2 & Hd).
    apply in_many1 in Hw2 as (-> & _ & _).
    apply in_date_re in Hd as [Hshape ->].
    split; [now right|].
    exists (w1 ++ lit "-" ++ w2 ++ d). now rewrite <- !app_assoc.
  - split; [now left|]. now exists [].
Qed.

(** Every section found has a label, and a date that is absent or
    date-shaped. *)
Lemma find_versions_in db content version date :
  In (version, date) (find_versions db content) ->
  version <> [] /\
  (date = [] \/ date_shaped db date) /\
  exists pre post, content = pre ++ lit "## [" ++ version ++ lit "]" ++ post.
Proof.
  unfold find_versions, findall. intros H.
  apply findall_from_in in H as (pre & s & r & -> & Hm).
  apply first_match_in, in_version_pattern in Hm as (_ & Hne & Hd & mid & ->).
  repeat split; try assumption.
  exists pre, (mid ++ r). reflexivity.
Qed.

(** The loop body never reaches the date-format error. *)
Lemma check_version_no_error db version date :
  date = [] \/ date_shaped db date ->
  snd (check_version db (version, date)) = [].
Proof.
  intros [-> | H]; simpl.
  - reflexivity.
  - rewrite (re_match_date_shaped _ _ H). simpl. now rewrite andb_false_r.
Qed.

Lemma check_versions_date_errors db content :
  flat_map (fun v => snd (check_version db v)) (find_versions db content) = [].
Proof.
  apply flat_map_nil. intros [version date] Hin.
  apply check_version_no_error.
  now apply find_versions_in in Hin as (_ & Hd & _).
Qed.

(** [content.split('\n')] is never empty, and its first element is the
    first line. *)
Lemma split_first_line s : exists ls, split NL s = first_line s :: ls.
Proof.
  induction s as [|c s [ls IH]]; simpl.
  - now exists [].
  - destruct (c =? NL).
    + now exists (split NL s).
    + rewrite IH. now exists ls.
Qed.

Lemma check_header_returns content :
  check_header (split NL content) =
  Returns (if negb (startswith (lit "# Changelog") (first_line content))
           then [msg_header] else []).
Proof.
  destruct (split_first_line content) as [ls ->]. reflexivity.
Qed.

(** The diagnostics in closed form: [lines[0]] never raises. *)
Lemma diagnostics_returns db content :
  diagnostics db content =
  Returns
    ((if negb (startswith (lit "# Changelog") (first_line content))
      then [msg_header] else [])
     ++ snd (check_versions db (find_versions db content)),
     check_keepachangelog content ++ check_semver content
       ++ fst (check_versions db (find_versions db content))
       ++ check_unreleased db content
       ++ check_list_markers content
       ++ check_comparison_link (find_versions db content) content).
Proof.
  unfold diagnostics. rewrite check_header_returns.
  now destruct (check_versions db (find_versions db content)).
Qed.

Lemma for_each_print {A : Type} (g : A -> str) (body : A -> IO unit) :
  (forall x, body x = print (g x)) ->
  forall xs out, for_each xs body out = (Returns tt, out ++ map g xs).
Proof.
  intros Hb. induction xs as [|x xs IH]; intros out; simpl.
  - unfold io_ret. now rewrite app_nil_r.
  - unfold io_bind. rewrite Hb. unfold print at 1.
    rewrite IH. now rewrite <- app_assoc.
Qed.

Lemma io_bind_returns {A B : Type} (m : IO A) (f : A -> IO B) out a out' :
  m out = (Returns a, out') -> io_bind m f out = f a out'.
Proof. unfold io_bind. now intros ->. Qed.

Lemma validate_changelog_present db content out errors warnings_list :
  diagnostics db content = Returns (errors, warnings_list) ->
  validate_changelog db (Some content) out =
  (Returns (negb (truthy errors)), out ++ printed errors warnings_list).
Proof.
  intros Hd. unfold validate_changelog.
  change (negb (path_exists (Some content))) with false. cbv iota.
  erewrite io_bind_returns by reflexivity.
  erewrite io_bind_returns by reflexivity.
  erewrite io_bind_returns by (unfold lift; rewrite Hd; reflexivity).
  simpl fst. simpl snd.
  erewrite io_bind_returns by reflexivity.
  erewrite io_bind_returns
    by (apply (for_each_print warning_line warning); reflexivity).
  unfold printed. destruct (truthy errors) eqn:He.
  - erewrite io_bind_returns by reflexivity.
    erewrite io_bind_returns
      by (apply (for_each_print error_line error); reflexivity).
    erewrite io_bind_returns by reflexivity.
    erewrite io_bind_returns by reflexivity.
    unfold io_ret. simpl negb. f_equal.
    rewrite <- !app_assoc. reflexivity.
  - destruct (truthy warnings_list) eqn:Hw.
    + erewrite io_bind_returns.
      2:{ erewrite io_bind_returns by reflexivity. reflexivity. }
      unfold io_ret. simpl negb. f_equal. rewrite <- !app_assoc. reflexivity.
    + erewrite io_bind_returns.
      2:{ erewrite io_bind_returns by reflexivity. reflexivity. }
      unfold io_ret. simpl negb. f_equal. rewrite <- !app_assoc. reflexivity.
Qed.

Lemma validate_changelog_absent db out :
  validate_changelog db None out =
  (Returns false, out ++ [error_line (lit "CHANGELOG.md not found")]).
Proof. reflexivity. Qed.

(** The errors in closed form: the header error, then at most one of the
    two section errors. *)
Lemma version_errors_closed db content :
  snd (check_versions db (find_versions db content)) =
  if negb (truthy (find_versions db content)) then [msg_no_versions]
  else if negb (existsb (fun v => str_eqb (fst v) (lit "Unreleased"))
                        (find_versions db content))
       then [msg_no_unreleased] else [].
Proof.
  unfold check_versions.
  destruct (negb (truthy (find_versions db content))); [reflexivity|].
  simpl snd. rewrite check_versions_date_errors, app_nil_r. reflexivity.
Qed.

Lemma errors_are_fixed db content errors warnings_list e :
  diagnostics db content = Returns (errors, warnings_list) ->
  In e errors ->
  e = msg_header \/ e = msg_no_versions \/ e = msg_no_unreleased.
Proof.
  rewrite diagnostics_returns, version_errors_closed.
  set (h := negb (startswith (lit "# Changelog") (first_line content))).
  set (n := negb (truthy (find_versions db content))).
  set (u := negb (existsb _ _)).
  intros E. injection E as <- _. clearbody h n u.
  destruct h, n, u; simpl; intuition.
Qed.

(** *** The Unreleased section as the script reads it *)

Lemma lookahead_section_ends s :
  lookahead (alt (literal (lit "## [") ;;; ret tt) dollar) s =
  if section_ends s then [(tt, s)] else [].
Proof.
  unfold lookahead, alt, section_ends.
  destruct (startswith (lit "## [") s) eqn:Hs.
  - apply startswith_inv in Hs as [r ->].
    erewrite bind_single by apply literal_app. reflexivity.
  - rewrite bind_none by now apply literal_startswith.
    destruct s as [|c [|c' s']]; simpl; [reflexivity| |reflexivity].
    now destruct (c =? NL).
Qed.

Lemma body_then_end_cons c s :
  body_then_end (c :: s) =
  (if section_ends (c :: s) then [([], c :: s)] else [])
  ++ map (fun q => (c :: fst q, snd q)) (body_then_end s).
Proof.
  unfold body_then_end, bind. simpl lazy_any. simpl flat_map.
  rewrite lookahead_section_ends. f_equal.
  - now destruct (section_ends (c :: s)).
  - induction (lazy_any s) as [|[m r] l IH]; simpl; [reflexivity|].
    rewrite map_app, IH. f_equal.
    rewrite !lookahead_section_ends. now destruct (section_ends r).
Qed.

Lemma body_then_end_first s :
  exists r, first_match (body_then_end s) = Some (unreleased_body s, r).
Proof.
  induction s as [|c s [r IH]].
  - now exists [].
  - rewrite body_then_end_cons. simpl unreleased_body.
    destruct (section_ends (c :: s)).
    + now exists (c :: s).
    + simpl app. destruct (body_then_end s) as [|[m r'] l]; [discriminate|].
      simpl in IH. injection IH as -> ->. now exists r.
Qed.

Lemma skipn_app_length {A : Type} (l r : list A) : skipn (List.length l) (l ++ r) = r.
Proof. induction l; simpl; auto. Qed.

Lemma unreleased_re_first bol s :
  option_map fst (first_match (unreleased_re bol s)) =
  if startswith (lit "## [Unreleased]") s
  then Some (unreleased_body (skipn 15 s))
  else None.
Proof.
  change (unreleased_re bol) with (literal (lit "## [Unreleased]") ;;; body_then_end).
  destruct (startswith (lit "## [Unreleased]") s) eqn:Hs.
  - apply startswith_inv in Hs as [r ->].
    erewrite bind_single by apply literal_app.
    change 15%nat with (List.length (lit "## [Unreleased]")).
    rewrite skipn_app_length.
    destruct (body_then_end_first r) as [r' ->]. reflexivity.
  - rewrite bind_none by now apply literal_startswith. reflexivity.
Qed.

(** [re.search] with [unreleased_re]: group 1 is the text from the end of
    the first occurrence of [## [Unreleased]] up to where the section
    ends. *)
Lemma find_first_cons sub c s :
  find_first sub (c :: s) =
  if startswith sub (c :: s) then Some ([], skipn (List.length sub) (c :: s))
  else match find_first sub s with
       | Some (before, after) => Some (c :: before, after)
       | None => None
       end.
Proof. reflexivity. Qed.

Lemma re_search_from_cons {A : Type} (p : bool -> matcher A) bol c s :
  re_search_from p bol (c :: s) =
  match first_match (p bol (c :: s)) with
  | Some r => Some (fst r)
  | None => re_search_from p (c =? NL) s
  end.
Proof. reflexivity. Qed.

Lemma re_search_from_unreleased content : forall bol,
  re_search_from unreleased_re bol content =
  option_map (fun p => unreleased_body (snd p))
             (find_first (lit "## [Unreleased]") content).
Proof.
  induction content as [|c s IH]; intros bol.
  - reflexivity.
  - rewrite re_search_from_cons, find_first_cons.
    pose proof (unreleased_re_first bol (c :: s)) as Hf.
    destruct (startswith (lit "## [Unreleased]") (c :: s)) eqn:Hs.
    + destruct (first_match (unreleased_re bol (c :: s))) as [[b r]|];
        [|discriminate].
      injection Hf as ->. reflexivity.
    + destruct (first_match (unreleased_re bol (c :: s))) as [[b r]|];
        [discriminate|].
      rewrite IH. now destruct (find_first (lit "## [Unreleased]") s) as [[? ?]|].
Qed.

Lemma re_search_unreleased content :
  re_search unreleased_re content =
  option_map (fun p => unreleased_body (snd p))
             (find_first (lit "## [Unreleased]") content).
Proof. apply re_search_from_unreleased. Qed.

Lemma find_first_occurs sub post : forall pre,
  exists before after, find_first sub (pre ++ sub ++ post) = Some (before, after).
Proof.
  induction pre as [|c pre (b & a & IH)].
  - simpl app. destruct sub as [|x sub].
    + destruct post; eexists _, _; reflexivity.
    + simpl app. rewrite find_first_cons.
      change (x :: sub ++ post) with ((x :: sub) ++ post).
      rewrite startswith_app. now eexists _, _.
  - change ((c :: pre) ++ sub ++ post) with (c :: (pre ++ sub ++ post)).
    rewrite find_first_cons, IH.
    destruct (startswith sub (c :: pre ++ sub ++ post)); now eexists _, _.
Qed.

(** An Unreleased section among those found means that the text
    [## [Unreleased]] occurs. *)
Lemma unreleased_section_occurs db content date :
  In (lit "Unreleased", date) (find_versions db content) ->
  exists before after,
    find_first (lit "## [Unreleased]") content = Some (before, after).
Proof.
  intros Hin. apply find_versions_in in Hin as (_ & _ & pre & post & ->).
  change (lit "## [" ++ lit "Unreleased" ++ lit "]" ++ post)
    with (lit "## [Unreleased]" ++ post).
  apply find_first_occurs.
Qed.

Lemma unreleased_sections_in versions :
  unreleased_sections versions <> [] ->
  existsb (fun v => str_eqb (fst v) (lit "Unreleased")) versions = true /\
  exists date, In (lit "Unreleased", date) versions.
Proof.
  unfold unreleased_sections. intros Hne.
  destruct (filter _ versions) as [|[version date] l] eqn:E; [contradiction|].
  assert (Hin : In (version, date)
                   (filter (fun v => str_eqb (fst v) (lit "Unreleased")) versions))
    by (rewrite E; now left).
  apply filter_In in Hin as [Hin Hu]. simpl in Hu.
  split.
  - apply existsb_exists. now exists (version, date).
  - apply str_eqb_eq in Hu as ->. now exists date.
Qed.

Lemma startswith_app_long l : forall x t,
  (List.length l <= List.length x)%nat -> startswith l (x ++ t) = startswith l x.
Proof.
  induction l as [|a l IH]; intros [|c x] t Hlen; simpl in *; try reflexivity.
  - lia.
  - rewrite IH by lia. reflexivity.
Qed.

(** Nothing after the next [## [] is read. *)
Lemma unreleased_body_cut rest : forall body,
  unreleased_body (body ++ lit "## [" ++ rest) = unreleased_body (body ++ lit "## [").
Proof.
  assert (Hends : forall body,
             section_ends (body ++ lit "## [" ++ rest)
             = section_ends (body ++ lit "## [")).
  { intros body. unfold section_ends.
    rewrite (app_assoc body), startswith_app_long
      by (rewrite length_app; simpl; lia).
    f_equal.
    destruct body as [|c [|c' body]]; reflexivity. }
  induction body as [|c body IH].
  - reflexivity.
  - change ((c :: body) ++ lit "## [" ++ rest)
      with (c :: (body ++ lit "## [" ++ rest)).
    change ((c :: body) ++ lit "## [") with (c :: (body ++ lit "## [")).
    pose proof (Hends (c :: body)) as He.
    change ((c :: body) ++ lit "## [" ++ rest)
      with (c :: (body ++ lit "## [" ++ rest)) in He.
    change ((c :: body) ++ lit "## [") with (c :: (body ++ lit "## [")) in He.
    cbn [unreleased_body]. rewrite He, IH. reflexivity.
Qed.

(** The text examined is a prefix of what follows the header, and stops
    where the section ends. *)
Lemma unreleased_body_prefix s :
  exists rest, s = unreleased_body s ++ rest /\ section_ends rest = true.
Proof.
  induction s as [|c s (rest & IH & He)].
  - now exists [].
  - cbn [unreleased_body]. destruct (section_ends (c :: s)) eqn:E.
    + now exists (c :: s).
    + exists rest. split; [|exact He]. simpl. now rewrite <- IH.
Qed.

Lemma check_unreleased_eq db content :
  check_unreleased db content =
  match find_first (lit "## [Unreleased]") content with
  | Some (_, after) => check_unreleased_content db (unreleased_body after)
  | None => []
  end.
Proof.
  unfold check_unreleased. rewrite re_search_unreleased.
  now destruct (find_first (lit "## [Unreleased]") content) as [[? ?]|].
Qed.

Lemma check_unreleased_content_known db body w :
  In w (check_unreleased_content db body) -> known_warning w.
Proof.
  unfold check_unreleased_content, known_warning.
  destruct (negb (truthy (findall (category_pattern db) body))).
  - intros [<- | []]. tauto.
  - intros H. apply in_app_or in H as [H | H].
    + destruct (truthy _); [|easy].
      destruct H as [<- | [<- | []]]; [|tauto].
      do 4 right. left. now eexists.
    + destruct (negb _); [|easy]. destruct H as [<- | []]. tauto.
Qed.

Lemma warnings_are_known db content errors warnings_list w :
  diagnostics db content = Returns (errors, warnings_list) ->
  In w warnings_list -> known_warning w.
Proof.
  rewrite diagnostics_returns. intros E. injection E as _ <-. intros H.
  repeat (apply in_app_or in H as [H | H]).
  - unfold check_keepachangelog in H. destruct (negb _); [|easy].
    destruct H as [<- | []]. unfold known_warning. tauto.
  - unfold check_semver in H. destruct (negb _); [|easy].
    destruct H as [<- | []]. unfold known_warning. tauto.
  - unfold check_versions in H. destruct (negb (truthy _)); [easy|].
    simpl fst in H. apply in_flat_map in H as ([version date] & _ & H).
    simpl in H. destruct (_ && _); [|easy]. destruct H as [<- | []].
    unfold known_warning. do 2 right. left. now exists version.
  - unfold check_unreleased in H.
    destruct (re_search unreleased_re content); [|easy].
    now apply check_unreleased_content_known in H.
  - unfold check_list_markers in H.
    destruct (re_search other_marker_re content); [|easy].
    destruct H as [<- | []]. unfold known_warning. tauto.
  - unfold check_comparison_link in H. destruct (_ && _); [|easy].
    destruct (re_search unreleased_link_re content); [easy|].
    destruct H as [<- | []]. unfold known_warning. tauto.
Qed.




(** * The properties *)

(** C1: for every input text the verdict [isValid] returned by
    [validate_changelog] is true exactly when the final [errors] list is
    empty, whatever the warnings, and the process exits with status 0 when
    the verdict is true and with status 1 when it is false. *)
Theorem C1_verdict_and_exit_status (db : unicode_db) (content : str) (out : list str) :
  exists errors warnings_list isValid out',
    diagnostics db content = Returns (errors, warnings_list) /\
    validate_changelog db (Some content) out = (Returns isValid, out') /\
    (isValid = true <-> errors = []) /\
    main db (Some content) out = (if isValid then 0 else 1, out').
Proof.
  pose proof (diagnostics_returns db content) as Hd.
  remember (_ ++ snd (check_versions db (find_versions db content))) as errors.
  remember (check_keepachangelog content ++ _) as warnings_list.
  exists errors, warnings_list, (negb (truthy errors)),
    (out ++ printed errors warnings_list).
  pose proof (validate_changelog_present db content out _ _ Hd) as Hv.
  split; [exact Hd|]. split; [exact Hv|].
  unfold main. rewrite Hv. clear.
  destruct errors; simpl; repeat split; easy.
Qed.

(** C2: when the first line of the input does not start with
    [# Changelog], the header error is among the errors and the verdict is
    false, whatever the rest of the input is. *)
Theorem C2_missing_header (db : unicode_db) (content : str) (out : list str) :
  startswith (lit "# Changelog") (first_line content) = false ->
  exists errors warnings_list out',
    diagnostics db content = Returns (errors, warnings_list) /\
    In msg_header errors /\
    validate_changelog db (Some content) out = (Returns false, out').
Proof.
  intros Hfirst.
  pose proof (diagnostics_returns db content) as Hd.
  rewrite Hfirst in Hd. simpl negb in Hd. cbv iota in Hd.
  remember (snd (check_versions db (find_versions db content))) as es.
  remember (check_keepachangelog content ++ _) as warnings_list.
  exists ([msg_header] ++ es), warnings_list,
    (out ++ printed ([msg_header] ++ es) warnings_list).
  split; [exact Hd|]. split; [now left|].
  now rewrite (validate_changelog_present db content out _ _ Hd).
Qed.

Lemma C2_missing_header_witness :
  exists errors warnings_list out',
    diagnostics ascii_db (pystr "Changes\n## [Unreleased]\n")
      = Returns (errors, warnings_list) /\
    In msg_header errors /\
    validate_changelog ascii_db (Some (pystr "Changes\n## [Unreleased]\n")) []
      = (Returns false, out').
Proof.
  apply (C2_missing_header ascii_db (pystr "Changes\n## [Unreleased]\n") []).
  reflexivity.
Defined.

(** C3: at a released section whose date is written [01-02-2024], the
    script reports no date-format error: the section pattern captures no
    date there, so the loop sees the section as undated and only warns
    that the date is missing. *)
Theorem C3_malformed_date_only_warned (db : unicode_db) :
  let content :=
    pystr "# Changelog\n\n## [Unreleased]\n### Added\n- x\n\n## [1.0.0] - 01-02-2024\n### Fixed\n- y\n" in
  find_versions db content = [(lit "Unreleased", []); (lit "1.0.0", [])] /\
  diagnostics db content =
  Returns ([],
           [msg_no_keepachangelog; msg_no_semver;
            msg_missing_date (lit "1.0.0"); msg_no_link]).
Proof. intros content. split; vm_compute; reflexivity. Qed.

(** C4: for every input text no date-format error is among the errors.
    A date reported by the section pattern is the empty text or has the
    shape of four digits, dash, two digits, dash, two digits, which the
    later format test accepts; so the loop body never yields an error,
    and what is not of that shape is handled as a missing date. *)
Theorem C4_date_format_error_unreachable (db : unicode_db) (content : str) :
  exists errors warnings_list,
    diagnostics db content = Returns (errors, warnings_list) /\
    (forall version date, ~ In (msg_invalid_date version date) errors) /\
    (forall version date,
        In (version, date) (find_versions db content) ->
        (date = [] \/ date_shaped db date) /\
        snd (check_version db (version, date)) = [] /\
        (date = [] -> version <> lit "Unreleased" ->
         fst (check_version db (version, date)) = [msg_missing_date version])).
Proof.
  pose proof (diagnostics_returns db content) as Hd.
  remember (_ ++ snd (check_versions db (find_versions db content))) as errors.
  remember (check_keepachangelog content ++ _) as warnings_list.
  exists errors, warnings_list. split; [exact Hd|]. split.
  - intros version date Hin.
    destruct (errors_are_fixed _ _ _ _ _ Hd Hin) as [E | [E | E]];
      apply (f_equal (@hd N 0)) in E; vm_compute in E; discriminate.
  - intros version date Hin.
    apply find_versions_in in Hin as (_ & Hdate & _).
    split; [exact Hdate|]. split; [now apply check_version_no_error|].
    intros -> Hne. simpl.
    destruct (str_eqb version (lit "Unreleased")) eqn:E; [|reflexivity].
    apply str_eqb_eq in E. contradiction.
Qed.

(** C5: on the first end-to-end input the verdict is true, there is no
    error, the warnings are the two missing-reference warnings and nothing
    else; no comparison-link warning, that check being skipped for fewer
    than two version sections. *)
Theorem C5_single_unreleased_section (db : unicode_db) :
  let content := pystr "# Changelog\n\n## [Unreleased]\n### Added\n- New feature\n" in
  diagnostics db content = Returns ([], [msg_no_keepachangelog; msg_no_semver]) /\
  (forall out, fst (validate_changelog db (Some content) out) = Returns true) /\
  List.length (find_versions db content) = 1%nat /\
  re_search unreleased_link_re content = None /\
  (forall versions text,
      (List.length versions < 2)%nat -> check_comparison_link versions text = []).
Proof.
  intros content.
  assert (Hd : diagnostics db content
               = Returns ([], [msg_no_keepachangelog; msg_no_semver]))
    by (vm_compute; reflexivity).
  split; [exact Hd|]. split.
  - intros out. now rewrite (validate_changelog_present db content out _ _ Hd).
  - split; [vm_compute; reflexivity|]. split; [vm_compute; reflexivity|].
    intros [|v [|v' versions]] text Hlen; simpl in *; try reflexivity. lia.
Qed.

(** C6: on the second end-to-end input, which has no Unreleased section,
    the only error is the missing-Unreleased-section error: the date
    [2024-13-45] is captured, passes the format test and raises no date
    error, the pattern looking at the shape only. *)
Theorem C6_impossible_calendar_date (db : unicode_db) :
  let content := pystr "# Changelog\n\n## [1.0.0] - 2024-13-45\n### Added\n- X\n" in
  find_versions db content = [(lit "1.0.0", lit "2024-13-45")] /\
  re_match (fun _ => date_re db) (lit "2024-13-45") = Some (lit "2024-13-45") /\
  check_version db (lit "1.0.0", lit "2024-13-45") = ([], []) /\
  diagnostics db content =
  Returns ([msg_no_unreleased], [msg_no_keepachangelog; msg_no_semver]).
Proof. intros content. repeat split; vm_compute; reflexivity. Qed.

(** C7: validation always runs to completion.  Whether the file exists or
    not, and whatever its text, [validate_changelog] returns a verdict and
    raises nothing; the diagnostics are always produced; and on the empty
    text they are the header error and the no-version-sections error. *)
Theorem C7_validation_is_total (db : unicode_db) (changelog_path : Path) (out : list str) :
  (exists isValid out',
      validate_changelog db changelog_path out = (Returns isValid, out')) /\
  (forall content, exists errors warnings_list,
      diagnostics db content = Returns (errors, warnings_list)) /\
  diagnostics db [] =
  Returns ([msg_header; msg_no_versions], [msg_no_keepachangelog; msg_no_semver]).
Proof.
  split; [|split].
  - destruct changelog_path as [content|].
    + eexists _, _. apply validate_changelog_present, diagnostics_returns.
    + eexists _, _. apply validate_changelog_absent.
  - intros content. eexists _, _. apply diagnostics_returns.
  - vm_compute. reflexivity.
Qed.

(** C8: validation is deterministic.  The outcome of a run and the lines
    it prints depend on the file alone, not on what was printed before;
    hence a second run right after the first one gives the same verdict
    and prints the same lines again. *)
Theorem C8_validation_is_deterministic (db : unicode_db) (changelog_path : Path) :
  exists result lines,
    (forall out, validate_changelog db changelog_path out = (result, out ++ lines)) /\
    (forall out,
        validate_changelog db changelog_path
          (snd (validate_changelog db changelog_path out))
        = (result, (out ++ lines) ++ lines)) /\
    (forall content errors warnings_list,
        changelog_path = Some content ->
        diagnostics db content = Returns (errors, warnings_list) ->
        result = Returns (negb (truthy errors)) /\
        lines = printed errors warnings_list).
Proof.
  destruct changelog_path as [content|].
  - pose proof (diagnostics_returns db content) as Hd.
    remember (_ ++ snd (check_versions db (find_versions db content))) as errors.
    remember (check_keepachangelog content ++ _) as warnings_list.
    exists (Returns (negb (truthy errors))), (printed errors warnings_list).
    assert (Hrun : forall out,
               validate_changelog db (Some content) out
               = (Returns (negb (truthy errors)), out ++ printed errors warnings_list))
      by (intros out; now apply validate_changelog_present).
    split; [exact Hrun|]. split.
    + intros out. now rewrite (Hrun out), Hrun.
    + intros content' errors' warnings' E Hd'. inversion E; subst content'.
      rewrite Hd in Hd'. now inversion Hd'.
  - exists (Returns false), [error_line (lit "CHANGELOG.md not found")].
    split; [intros out; apply validate_changelog_absent|]. split.
    + intros out. now rewrite !validate_changelog_absent.
    + intros content errors warnings_list E. discriminate.
Qed.

(** C9: on the input below the content rules for Unreleased do not read
    the text between the first [## [Unreleased]] header and the next
    [## [] line.  The lines that start a section are the third and the
    sixth, both Unreleased, and the presence rule is satisfied: there is
    no error.  The text between the third line and the sixth has a valid
    category with an entry, which the content rules accept.  Yet the
    script warns about the category [Bogus] of the second line and about
    an empty section: its search for [## [Unreleased]] is not tied to the
    start of a line, as the search for the sections is, and the text first
    occurs inside the first line. *)
Theorem C9_unanchored_search_reads_earlier_text (db : unicode_db) :
  let content :=
    pystr "# Changelog ## [Unreleased]\n### Bogus\n## [Unreleased]\n### Added\n- x\n## [Unreleased]\n" in
  find_versions db content = [(lit "Unreleased", []); (lit "Unreleased", [])] /\
  unreleased_by_lines content = Some (pystr "\n### Added\n- x\n") /\
  check_unreleased_content db (pystr "\n### Added\n- x\n") = [] /\
  re_search unreleased_re content = Some (pystr "\n### Bogus\n") /\
  check_unreleased db content =
    [msg_invalid_categories [lit "Bogus"]; msg_valid_categories; msg_empty_unreleased] /\
  check_unreleased db content <>
    match unreleased_by_lines content with
    | Some text => check_unreleased_content db text
    | None => []
    end /\
  diagnostics db content =
    Returns ([],
             [msg_no_keepachangelog; msg_no_semver;
              msg_invalid_categories [lit "Bogus"]; msg_valid_categories;
              msg_empty_unreleased; msg_no_link]).
Proof.
  intros content. repeat split; try (vm_compute; reflexivity).
  vm_compute. discriminate.
Qed.


(** * Further facts about searching *)

Lemma in_many1_iff P : forall x s r,
  In (x, r) (many1 P s) <-> s = x ++ r /\ x <> [] /\ forallb P x = true.
Proof.
  intros x s r. split; [apply in_many1|].
  revert s. induction x as [|c x IH]; intros s (-> & Hne & Hall); [contradiction|].
  simpl in Hall. apply andb_prop in Hall as [Hc Hx].
  simpl. rewrite Hc. apply in_or_app.
  destruct x as [|c' x].
  - right. now left.
  - left. apply in_cons_map. exists (c' :: x). split; [reflexivity|].
    apply IH. repeat split; [discriminate | assumption].
Qed.

Lemma nonempty_in {A : Type} (l : list A) : l <> [] <-> exists x, In x l.
Proof.
  destruct l as [|a l]; split.
  - contradiction.
  - intros [x []].
  - intros _. exists a. now left.
  - discriminate.
Qed.

Lemma first_match_none {A : Type} (rs : list (A * str)) :
  first_match rs = None <-> rs = [].
Proof. destruct rs; simpl; split; easy. Qed.

(** [re.search] finds nothing exactly when the pattern matches at no
    position of the text. *)
Lemma re_search_from_none {A : Type} (p : bool -> matcher A) :
  forall s bol,
    re_search_from p bol s = None <->
    forall pre s', s = pre ++ s' -> p (bol_after bol pre) s' = [].
Proof.
  induction s as [|c s IH]; intros bol.
  - simpl. destruct (first_match (p bol [])) as [r|] eqn:E; split.
    + discriminate.
    + intros H. pose proof (H [] [] eq_refl) as H0. simpl in H0.
      rewrite H0 in E. discriminate.
    + intros _ pre s' Hs. symmetry in Hs. apply app_eq_nil in Hs as [-> ->].
      now apply first_match_none.
    + reflexivity.
  - rewrite re_search_from_cons.
    destruct (first_match (p bol (c :: s))) as [r|] eqn:E; split.
    + discriminate.
    + intros H. pose proof (H [] (c :: s) eq_refl) as H0. simpl in H0.
      rewrite H0 in E. discriminate.
    + intros H [|c' pre] s' Hs.
      * simpl in Hs. subst s'. now apply first_match_none.
      * simpl in Hs. injection Hs as <- ->. simpl. now apply (IH (c =? NL)).
    + intros H. apply IH. intros pre s' ->. apply (H (c :: pre) s'). reflexivity.
Qed.

Lemma re_search_from_some {A : Type} (p : bool -> matcher A) :
  forall s bol,
    re_search_from p bol s <> None <->
    exists pre s', s = pre ++ s' /\ p (bol_after bol pre) s' <> [].
Proof.
  induction s as [|c s IH]; intros bol.
  - simpl. destruct (first_match (p bol [])) as [r|] eqn:E; split.
    + intros _. exists [], []. split; [reflexivity|].
      intros H. simpl in H. rewrite H in E. discriminate.
    + discriminate.
    + contradiction.
    + intros (pre & s' & Hs & Hne). symmetry in Hs.
      apply app_eq_nil in Hs as [-> ->]. simpl in Hne.
      now apply first_match_none in E.
  - rewrite re_search_from_cons.
    destruct (first_match (p bol (c :: s))) as [r|] eqn:E; split.
    + intros _. exists [], (c :: s). split; [reflexivity|].
      intros H. simpl in H. rewrite H in E. discriminate.
    + discriminate.
    + intros H. apply IH in H as (pre & s' & -> & Hne).
      now exists (c :: pre), s'.
    + intros ([|c' pre] & s' & Hs & Hne).
      * simpl in Hs. subst s'. simpl in Hne. now apply first_match_none in E.
      * simpl in Hs. injection Hs as <- ->. apply IH. now exists pre, s'.
Qed.

(** [findall] finds nothing exactly when [search] finds nothing. *)
Lemma findall_from_nil {A : Type} (p : bool -> matcher A) :
  forall s bol, findall_from p O bol s = [] <-> re_search_from p bol s = None.
Proof.
  induction s as [|c s IH]; intros bol.
  - simpl. destruct (first_match (p bol [])); split; easy.
  - rewrite re_search_from_cons. simpl findall_from.
    destruct (first_match (p bol (c :: s))); [split; discriminate|].
    apply IH.
Qed.

Lemma contains_occurs sub : forall s, contains sub s = true <-> occurs sub s.
Proof.
  unfold occurs. induction s as [|c s IH].
  - simpl. rewrite orb_false_r. split.
    + intros H. apply startswith_inv in H as [r Hr]. now exists [], r.
    + intros (pre & post & H). symmetry in H.
      apply app_eq_nil in H as [-> H]. apply app_eq_nil in H as [-> ->].
      reflexivity.
  - cbn [contains]. rewrite orb_true_iff, IH. split.
    + intros [H | (pre & post & ->)].
      * apply startswith_inv in H as [r ->]. now exists [], r.
      * now exists (c :: pre), post.
    + intros ([|c' pre] & post & H).
      * left. simpl in H. rewrite H. apply startswith_app.
      * right. simpl in H. injection H as <- ->. now exists pre, post.
Qed.

(** A search for a pattern anchored by [^] succeeds exactly when one of the
    texts it accepts occurs at the start of a line. *)
Lemma re_search_anchored {A : Type} (p : bool -> matcher A) (accepts : str -> Prop) content :
  (forall bol s, p bol s <> [] <->
                 bol = true /\ exists pat r, accepts pat /\ s = pat ++ r) ->
  re_search p content <> None <->
  exists pat, accepts pat /\ occurs_at_line_start pat content.
Proof.
  intros Hp. unfold re_search. rewrite re_search_from_some. split.
  - intros (pre & s' & -> & Hne). apply Hp in Hne as (Hbol & pat & r & Hacc & ->).
    exists pat. split; [assumption|]. now exists pre, r.
  - intros (pat & Hacc & pre & post & -> & Hbol). exists pre, (pat ++ post).
    split; [reflexivity|]. apply Hp. split; [assumption|]. now exists pat, post.
Qed.

(** *** What each anchored pattern accepts *)

Lemma other_marker_re_accepts bol s :
  other_marker_re bol s <> [] <->
  bol = true /\
  exists pat r, (pat = lit "* " \/ pat = lit "+ ") /\ s = pat ++ r.
Proof.
  rewrite nonempty_in. unfold other_marker_re. split.
  - intros [[u r] H].
    apply in_bind in H as (u0 & s0 & Hc & H). apply in_caret in Hc as [-> ->].
    apply in_bind in H as (x & s1 & Hx & H).
    apply in_one in Hx as (c & -> & -> & Hc).
    apply in_bind in H as (sp & s2 & Hsp & H). apply in_literal in Hsp as [-> ->].
    split; [reflexivity|].
    unfold star_or_plus in Hc. apply orb_prop in Hc as [Hc | Hc];
      apply N.eqb_eq in Hc as ->.
    + exists (lit "* "), s2. split; [now left | reflexivity].
    + exists (lit "+ "), s2. split; [now right | reflexivity].
  - intros (-> & pat & r & Hpat & ->). exists (tt, r).
    apply in_bind. exists tt, (pat ++ r). split; [now apply in_caret|].
    destruct Hpat as [-> | ->].
    + apply in_bind. exists [42], (lit " " ++ r). split.
      * apply in_one. now exists 42.
      * apply in_bind. exists (lit " "), r. split; [now apply in_literal|].
        now apply in_ret.
    + apply in_bind. exists [43], (lit " " ++ r). split.
      * apply in_one. now exists 43.
      * apply in_bind. exists (lit " "), r. split; [now apply in_literal|].
        now apply in_ret.
Qed.

Lemma unreleased_link_re_accepts bol s :
  unreleased_link_re bol s <> [] <->
  bol = true /\
  exists pat r,
    (pat = lit "[Unreleased]: http://" \/ pat = lit "[Unreleased]: https://") /\
    s = pat ++ r.
Proof.
  rewrite nonempty_in. unfold unreleased_link_re. split.
  - intros [[u r] H].
    apply in_bind in H as (u0 & s0 & Hc & H). apply in_caret in Hc as [-> ->].
    apply in_bind in H as (x & s1 & Hx & H). apply in_literal in Hx as [-> ->].
    apply in_bind in H as (o & s2 & Ho & H).
    apply in_bind in H as (y & s3 & Hy & H). apply in_literal in Hy as [-> ->].
    apply in_ret in H as [_ ->].
    split; [reflexivity|].
    apply in_optional in Ho as [(a & -> & Ha) | [-> <-]].
    + apply in_literal in Ha as [-> ->].
      exists (lit "[Unreleased]: https://"), s3. split; [now right | reflexivity].
    + exists (lit "[Unreleased]: http://"), s3. split; [now left | reflexivity].
  - intros (-> & pat & r & Hpat & ->). exists (tt, r).
    apply in_bind. exists tt, (pat ++ r). split; [now apply in_caret|].
    destruct Hpat as [-> | ->].
    + apply in_bind. exists (lit "[Unreleased]: http"), (lit "://" ++ r). split.
      * now apply in_literal.
      * apply in_bind. exists None, (lit "://" ++ r). split.
        -- apply in_optional. now right.
        -- apply in_bind. exists (lit "://"), r. split; [now apply in_literal|].
           now apply in_ret.
    + apply in_bind. exists (lit "[Unreleased]: http"), (lit "s://" ++ r). split.
      * now apply in_literal.
      * apply in_bind. exists (Some (lit "s")), (lit "://" ++ r). split.
        -- apply in_optional. left. exists (lit "s"). split; [reflexivity|].
           now apply in_literal.
        -- apply in_bind. exists (lit "://"), r. split; [now apply in_literal|].
           now apply in_ret.
Qed.

Lemma entry_re_accepts db bol s :
  entry_re db bol s <> [] <->
  bol = true /\
  exists pat r,
    (exists c, pat = lit "- " ++ [c] /\ is_space db c = false) /\ s = pat ++ r.
Proof.
  rewrite nonempty_in. unfold entry_re. split.
  - intros [[u r] H].
    apply in_bind in H as (u0 & s0 & Hc & H). apply in_caret in Hc as [-> ->].
    apply in_bind in H as (x & s1 & Hx & H). apply in_literal in Hx as [-> ->].
    apply in_bind in H as (y & s2 & Hy & H).
    apply in_one in Hy as (c & -> & -> & Hc).
    apply in_ret in H as [_ ->].
    split; [reflexivity|]. exists (lit "- " ++ [c]), s2. split.
    + exists c. split; [reflexivity|].
      unfold is_nonspace in Hc. now apply negb_true_iff in Hc.
    + reflexivity.
  - intros (-> & pat & r & (c & -> & Hc) & ->). exists (tt, r).
    apply in_bind. exists tt, ((lit "- " ++ [c]) ++ r).
    split; [now apply in_caret|].
    apply in_bind. exists (lit "- "), (c :: r). split; [now apply in_literal|].
    apply in_bind. exists [c], r. split.
    + apply in_one. exists c. repeat split.
      unfold is_nonspace. now rewrite Hc.
    + now apply in_ret.
Qed.

Lemma category_pattern_accepts db bol s :
  category_pattern db bol s <> [] <->
  bol = true /\
  exists pat r,
    (exists c, pat = lit "### " ++ [c] /\ is_word db c = true) /\ s = pat ++ r.
Proof.
  rewrite nonempty_in. unfold category_pattern. split.
  - intros [[name r] H].
    apply in_bind in H as (u0 & s0 & Hc & H). apply in_caret in Hc as [-> ->].
    apply in_bind in H as (x & s1 & Hx & H). apply in_literal in Hx as [-> ->].
    apply in_bind in H as (n & s2 & Hn & H).
    apply in_many1 in Hn as (-> & Hne & Hw).
    destruct n as [|c n]; [contradiction|]. simpl in Hw.
    apply andb_prop in Hw as [Hc _].
    split; [reflexivity|]. exists (lit "### " ++ [c]), (n ++ s2). split.
    + now exists c.
    + reflexivity.
  - intros (-> & pat & r & (c & -> & Hc) & ->). exists ([c], r).
    apply in_bind. exists tt, ((lit "### " ++ [c]) ++ r).
    split; [now apply in_caret|].
    apply in_bind. exists (lit "### "), (c :: r). split; [now apply in_literal|].
    apply in_bind. exists [c], r. split.
    + apply in_many1_iff. repeat split; [discriminate|]. simpl. now rewrite Hc.
    + now apply in_ret.
Qed.

Lemma version_pattern_accepts db bol s :
  version_pattern db bol s <> [] <->
  bol = true /\
  exists pat r,
    (exists version,
        pat = lit "## [" ++ version ++ lit "]" /\
        version <> [] /\ forallb not_rbracket version = true) /\
    s = pat ++ r.
Proof.
  rewrite nonempty_in. unfold version_pattern. split.
  - intros [[vd r] H].
    apply in_bind in H as (u0 & s0 & Hc & H). apply in_caret in Hc as [-> ->].
    apply in_bind in H as (x & s1 & Hx & H). apply in_literal in Hx as [-> ->].
    apply in_bind in H as (v & s2 & Hv & H).
    apply in_many1 in Hv as (-> & Hne & Hall).
    apply in_bind in H as (b & s3 & Hb & H). apply in_literal in Hb as [-> ->].
    split; [reflexivity|].
    exists (lit "## [" ++ v ++ lit "]"), s3. split.
    + now exists v.
    + now rewrite <- !app_assoc.
  - intros (-> & pat & r & (v & -> & Hne & Hall) & ->). exists ((v, []), r).
    apply in_bind. exists tt, ((lit "## [" ++ v ++ lit "]") ++ r).
    split; [now apply in_caret|].
    apply in_bind. exists (lit "## ["), (v ++ lit "]" ++ r). split.
    + apply in_literal. split; [reflexivity|]. now rewrite <- !app_assoc.
    + apply in_bind. exists v, (lit "]" ++ r). split.
      * now apply in_many1_iff.
      * apply in_bind. exists (lit "]"), r. split; [now apply in_literal|].
        apply in_bind. exists None, r. split.
        -- apply in_optional. now right.
        -- now apply in_ret.
Qed.

(** * Where each diagnostic comes from *)

(** Two messages that differ in their first two characters, or two fixed
    messages that differ anywhere. *)
Ltac differ2 E :=
  exfalso;
  first [ apply (f_equal (firstn 2)) in E; vm_compute in E; discriminate E
        | vm_compute in E; discriminate E ].

Lemma truthy_false {A : Type} (xs : list A) : truthy xs = false <-> xs = [].
Proof. destruct xs; simpl; split; easy. Qed.

Lemma truthy_true {A : Type} (xs : list A) : truthy xs = true <-> xs <> [].
Proof. destruct xs; simpl; split; easy. Qed.

Lemma in_check_keepachangelog content w :
  In w (check_keepachangelog content) <->
  w = msg_no_keepachangelog /\ ~ occurs (lit "keepachangelog.com") content.
Proof.
  unfold check_keepachangelog. rewrite <- contains_occurs.
  destruct (contains (lit "keepachangelog.com") content); simpl; split.
  - contradiction.
  - intros [_ H]. now contradiction H.
  - intros [<- | []]. split; [reflexivity | discriminate].
  - intros [-> _]. now left.
Qed.

Lemma in_check_semver content w :
  In w (check_semver content) <->
  w = msg_no_semver /\ ~ occurs (lit "semver.org") content.
Proof.
  unfold check_semver. rewrite <- contains_occurs.
  destruct (contains (lit "semver.org") content); simpl; split.
  - contradiction.
  - intros [_ H]. now contradiction H.
  - intros [<- | []]. split; [reflexivity | discriminate].
  - intros [-> _]. now left.
Qed.

Lemma in_version_warnings db versions w :
  In w (fst (check_versions db versions)) <->
  exists version,
    w = msg_missing_date version /\
    In (version, []) versions /\ version <> lit "Unreleased".
Proof.
  unfold check_versions. destruct versions as [|v0 vs] eqn:Ev.
  - simpl. split; [contradiction | now intros (v & _ & [] & _)].
  - rewrite <- Ev. cbn [truthy negb]. replace (truthy versions) with true
      by (now rewrite Ev).
    cbn [negb fst]. rewrite in_flat_map. split.
    + intros ([version date] & Hin & H). simpl in H.
      destruct (str_eqb version (lit "Unreleased")) eqn:Eu; [easy|].
      destruct date as [|c date]; [|easy].
      destruct H as [<- | []]. exists version. repeat split; [assumption|].
      intros ->. rewrite (proj2 (str_eqb_eq _ _) eq_refl) in Eu. discriminate.
    + intros (version & -> & Hin & Hne). exists (version, []).
      split; [assumption|]. simpl.
      destruct (str_eqb version (lit "Unreleased")) eqn:Eu.
      * apply str_eqb_eq in Eu. contradiction.
      * now left.
Qed.

Lemma in_check_unreleased_content db text w :
  In w (check_unreleased_content db text) <->
  (w = msg_no_categories /\ findall (category_pattern db) text = []) \/
  (w = msg_invalid_categories (invalid_categories_of db text) /\
   invalid_categories_of db text <> []) \/
  (w = msg_valid_categories /\ invalid_categories_of db text <> []) \/
  (w = msg_empty_unreleased /\
   findall (category_pattern db) text <> [] /\
   re_search (entry_re db) text = None).
Proof.
  unfold check_unreleased_content, invalid_categories_of.
  set (cats := findall (category_pattern db) text).
  set (bad := filter _ cats).
  destruct cats as [|c cs] eqn:Ec.
  - subst bad. simpl. split.
    + intros [<- | []]. now left.
    + intros [[-> _] | [[_ H] | [[_ H] | (_ & H & _)]]]; try contradiction.
      now left.
  - cbn [truthy negb]. cbv iota. rewrite in_app_iff. split.
    + intros [H | H].
      * destruct bad as [|b bs] eqn:Eb; [contradiction|]. cbn [truthy] in H.
        destruct H as [<- | [<- | []]].
        -- right. left. split; [reflexivity | discriminate].
        -- right. right. left. split; [reflexivity | discriminate].
      * destruct (re_search (entry_re db) text) eqn:Ee; [contradiction|].
        destruct H as [<- | []]. right. right. right.
        repeat split. discriminate.
    + intros [[_ H] | [[-> H] | [[-> H] | (-> & _ & He)]]].
      * discriminate.
      * left. destruct bad; [contradiction|]. now left.
      * left. destruct bad; [contradiction|]. right. now left.
      * right. rewrite He. now left.
Qed.

Lemma in_check_unreleased db content w :
  In w (check_unreleased db content) <->
  exists text,
    re_search unreleased_re content = Some text /\
    In w (check_unreleased_content db text).
Proof.
  unfold check_unreleased.
  destruct (re_search unreleased_re content) as [text|]; split.
  - intros H. now exists text.
  - intros (text' & [= <-] & H). exact H.
  - contradiction.
  - intros (text & E & _). discriminate.
Qed.

Lemma in_check_list_markers content w :
  In w (check_list_markers content) <->
  w = msg_list_marker /\ re_search other_marker_re content <> None.
Proof.
  unfold check_list_markers.
  destruct (re_search other_marker_re content); simpl; split.
  - intros [<- | []]. split; [reflexivity | discriminate].
  - intros [-> _]. now left.
  - contradiction.
  - intros [_ H]. now contradiction H.
Qed.

Lemma in_check_comparison_link (versions : list (str * str)) content w :
  In w (check_comparison_link versions content) <->
  w = msg_no_link /\
  (2 <= List.length versions)%nat /\
  re_search unreleased_link_re content = None.
Proof.
  unfold check_comparison_link.
  destruct versions as [|v1 [|v2 vs]]; simpl.
  - split; [contradiction | intros (_ & H & _); lia].
  - split; [contradiction | intros (_ & H & _); lia].
  - destruct (re_search unreleased_link_re content); simpl; split.
    + contradiction.
    + intros (_ & _ & H). discriminate.
    + intros [<- | []]. repeat split. lia.
    + intros (-> & _). now left.
Qed.

(** Every warning has exactly one cause. *)
Lemma warning_origin db content errors warnings_list w :
  diagnostics db content = Returns (errors, warnings_list) ->
  (In w warnings_list <->
   (w = msg_no_keepachangelog /\ ~ occurs (lit "keepachangelog.com") content) \/
   (w = msg_no_semver /\ ~ occurs (lit "semver.org") content) \/
   (exists version,
       w = msg_missing_date version /\
       In (version, []) (find_versions db content) /\
       version <> lit "Unreleased") \/
   (exists text,
       re_search unreleased_re content = Some text /\
       In w (check_unreleased_content db text)) \/
   (w = msg_list_marker /\ re_search other_marker_re content <> None) \/
   (w = msg_no_link /\
    (2 <= List.length (find_versions db content))%nat /\
    re_search unreleased_link_re content = None)).
Proof.
  rewrite diagnostics_returns. intros E. injection E as _ <-.
  rewrite !in_app_iff.
  rewrite in_check_keepachangelog, in_check_semver, in_version_warnings,
    in_check_unreleased, in_check_list_markers, in_check_comparison_link.
  reflexivity.
Qed.

(** * Further properties *)

Lemma startswith_first_line prefix :
  forallb (fun c => negb (c =? NL)) prefix = true ->
  forall s, startswith prefix (first_line s) = startswith prefix s.
Proof.
  induction prefix as [|a prefix IH]; intros Hnl s; [reflexivity|].
  simpl in Hnl. apply andb_prop in Hnl as [Ha Hp]. apply negb_true_iff in Ha.
  destruct s as [|c s]; [reflexivity|]. simpl.
  destruct (c =? NL) eqn:Ec.
  - apply N.eqb_eq in Ec as ->. now rewrite Ha.
  - simpl. now rewrite IH.
Qed.

Lemma startswith_iff prefix s :
  startswith prefix s = true <-> exists rest, s = prefix ++ rest.
Proof.
  split; [apply startswith_inv|]. intros [rest ->]. apply startswith_app.
Qed.

Lemma unreleased_found_iff (versions : list (str * str)) :
  existsb (fun v => str_eqb (fst v) (lit "Unreleased")) versions = true <->
  exists date, In (lit "Unreleased", date) versions.
Proof.
  rewrite existsb_exists. split.
  - intros ([version date] & Hin & E). simpl in E.
    apply str_eqb_eq in E as ->. now exists date.
  - intros [date Hin]. exists (lit "Unreleased", date). split; [assumption|].
    now apply str_eqb_eq.
Qed.

(** The errors, with the conditions as properties of the text and of the
    sections found. *)
Lemma errors_closed db content errors warnings_list :
  diagnostics db content = Returns (errors, warnings_list) ->
  errors =
  (if startswith (lit "# Changelog") content then [] else [msg_header])
  ++ (match find_versions db content with
      | [] => [msg_no_versions]
      | _ :: _ =>
          if existsb (fun v => str_eqb (fst v) (lit "Unreleased"))
               (find_versions db content)
          then [] else [msg_no_unreleased]
      end).
Proof.
  rewrite diagnostics_returns, version_errors_closed.
  rewrite (startswith_first_line (lit "# Changelog")) by reflexivity.
  generalize (startswith (lit "# Changelog") content) as h.
  intros h E. injection E as <- _. f_equal.
  - now destruct h.
  - destruct (find_versions db content) as [|v vs]; [reflexivity|].
    cbn [truthy negb]. cbv iota. now destruct (existsb _ (v :: vs)).
Qed.

Lemma validate_changelog_absent_main db out :
  fst (main db None out) = 1.
Proof. reflexivity. Qed.

(** X1: the process exits with status 0 exactly when the file exists, its
    text begins with [# Changelog] and one of the sections found is
    labelled [Unreleased]; in every other case, a missing file included,
    the status is 1. *)
Theorem X1_exit_status (db : unicode_db) (changelog_path : Path) (out : list str) :
  (fst (main db changelog_path out) = 0 <->
   exists content,
     changelog_path = Some content /\
     (exists rest, content = lit "# Changelog" ++ rest) /\
     (exists date, In (lit "Unreleased", date) (find_versions db content))) /\
  (fst (main db changelog_path out) = 0 \/ fst (main db changelog_path out) = 1).
Proof.
  destruct changelog_path as [content|].
  - pose proof (diagnostics_returns db content) as Hd.
    remember (_ ++ snd (check_versions db (find_versions db content))) as errors.
    remember (check_keepachangelog content ++ _) as warnings_list.
    clear Heqerrors Heqwarnings_list.
    pose proof (errors_closed _ _ _ _ Hd) as He.
    unfold main. rewrite (validate_changelog_present db content out _ _ Hd).
    setoid_rewrite <- startswith_iff. setoid_rewrite <- unreleased_found_iff.
    split.
    + split.
      * intros H0. exists content. split; [reflexivity|].
        destruct (startswith (lit "# Changelog") content);
          destruct (find_versions db content) as [|v vs];
          try destruct (existsb _ (v :: vs));
          subst errors; simpl in H0; try discriminate. now split.
      * intros (content' & [= <-] & Hs & Hu). rewrite Hs in He.
        destruct (find_versions db content) as [|v vs]; [discriminate|].
        rewrite Hu in He. now subst errors.
    + destruct errors; simpl; [now left | now right].
  - rewrite validate_changelog_absent_main. split; [|now right].
    split; [discriminate|]. intros (content & E & _). discriminate.
Qed.

Lemma msg_header_not_versions : msg_header <> msg_no_versions.
Proof. intros E. vm_compute in E. discriminate E. Qed.

Lemma msg_header_not_unreleased : msg_header <> msg_no_unreleased.
Proof. intros E. vm_compute in E. discriminate E. Qed.

Lemma msg_versions_not_unreleased : msg_no_versions <> msg_no_unreleased.
Proof. intros E. vm_compute in E. discriminate E. Qed.

(** X2: each of the three errors has its own cause.  The header error is
    reported exactly when the text does not begin with [# Changelog]; the
    no-version-sections error exactly when no section is found; the
    missing-Unreleased error exactly when sections are found and none is
    labelled [Unreleased].  The last two exclude each other, so there are
    never more than two errors. *)
Theorem X2_error_causes (db : unicode_db) (content : str) :
  exists errors warnings_list,
    diagnostics db content = Returns (errors, warnings_list) /\
    (In msg_header errors <-> ~ exists rest, content = lit "# Changelog" ++ rest) /\
    (In msg_no_versions errors <-> find_versions db content = []) /\
    (In msg_no_unreleased errors <->
     find_versions db content <> [] /\
     ~ exists date, In (lit "Unreleased", date) (find_versions db content)) /\
    (List.length errors <= 2)%nat.
Proof.
  pose proof (diagnostics_returns db content) as Hd.
  remember (_ ++ snd (check_versions db (find_versions db content))) as errors.
  remember (check_keepachangelog content ++ _) as warnings_list.
  clear Heqerrors Heqwarnings_list.
  exists errors, warnings_list. split; [exact Hd|].
  pose proof (errors_closed _ _ _ _ Hd) as He.
  rewrite <- startswith_iff, <- unreleased_found_iff.
  pose proof msg_header_not_versions as N1.
  pose proof msg_header_not_unreleased as N2.
  pose proof msg_versions_not_unreleased as N3.
  destruct (startswith (lit "# Changelog") content);
    destruct (find_versions db content) as [|v vs];
    try destruct (existsb _ (v :: vs));
    subst errors; simpl; repeat split; intros;
    repeat match goal with
           | H : _ \/ _ |- _ => destruct H
           | H : _ /\ _ |- _ => destruct H
           | H : False |- _ => destruct H
           end;
    try congruence; try discriminate; try lia; try tauto; auto.
Qed.

Lemma option_none_iff {A : Type} (o : option A) : o = None <-> ~ o <> None.
Proof. destruct o; split; try easy. intros H. exfalso. apply H. discriminate. Qed.

(** X3: no section is found exactly when no line of the text starts with
    [## [], a non-empty label free of []] and then []]; the label may run
    over several lines.  In particular this does not depend on the Unicode
    database. *)
Theorem X3_no_section_found (db : unicode_db) (content : str) :
  find_versions db content = [] <->
  ~ exists version,
      version <> [] /\
      forallb not_rbracket version = true /\
      occurs_at_line_start (lit "## [" ++ version ++ lit "]") content.
Proof.
  unfold find_versions, findall.
  rewrite findall_from_nil, option_none_iff.
  change (re_search_from (version_pattern db) true content)
    with (re_search (version_pattern db) content).
  rewrite (re_search_anchored (version_pattern db)
             (fun pat => exists version,
                  pat = lit "## [" ++ version ++ lit "]" /\
                  version <> [] /\ forallb not_rbracket version = true))
    by apply version_pattern_accepts.
  split; intros H C; apply H.
  - destruct C as (version & Hne & Hall & Hocc).
    exists (lit "## [" ++ version ++ lit "]"). split; [|exact Hocc].
    now exists version.
  - destruct C as (pat & (version & -> & Hne & Hall) & Hocc).
    now exists version.
Qed.

(** No warning of the content rules for Unreleased is [w]. *)
Ltac not_unreleased_warning H :=
  let E := fresh "E" in
  apply in_check_unreleased_content in H
    as [[E _] | [[E _] | [[E _] | [E _]]]]; differ2 E.

Lemma msg_missing_date_inj v v' :
  msg_missing_date v = msg_missing_date v' -> v = v'.
Proof.
  unfold msg_missing_date. intros E.
  apply app_inv_head in E. now apply app_inv_tail in E.
Qed.

(** X5: a missing-date warning naming a label is among the warnings
    exactly when a section with that label, other than [Unreleased], is
    found without a date. *)
Theorem X5_missing_date_warning (db : unicode_db) (content : str) :
  exists errors warnings_list,
    diagnostics db content = Returns (errors, warnings_list) /\
    forall version,
      In (msg_missing_date version) warnings_list <->
      In (version, []) (find_versions db content) /\ version <> lit "Unreleased".
Proof.
  pose proof (diagnostics_returns db content) as Hd.
  remember (_ ++ snd (check_versions db (find_versions db content))) as errors.
  remember (check_keepachangelog content ++ _) as warnings_list.
  clear Heqerrors Heqwarnings_list.
  exists errors, warnings_list. split; [exact Hd|].
  intros version. rewrite (warning_origin _ _ _ _ _ Hd). split.
  - intros [[E H] | [[E H] | [(v & E & H) | [(text & Hs & H) | [[E H] | [E H]]]]]];
      try (differ2 E).
    + apply msg_missing_date_inj in E as <-. exact H.
    + not_unreleased_warning H.
  - intros H. right. right. left. now exists version.
Qed.

(** X6: each of the two reference warnings is among the warnings exactly
    when the site name it asks for occurs nowhere in the text. *)
Theorem X6_reference_warnings (db : unicode_db) (content : str) :
  exists errors warnings_list,
    diagnostics db content = Returns (errors, warnings_list) /\
    (In msg_no_keepachangelog warnings_list <->
     ~ occurs (lit "keepachangelog.com") content) /\
    (In msg_no_semver warnings_list <-> ~ occurs (lit "semver.org") content).
Proof.
  pose proof (diagnostics_returns db content) as Hd.
  remember (_ ++ snd (check_versions db (find_versions db content))) as errors.
  remember (check_keepachangelog content ++ _) as warnings_list.
  clear Heqerrors Heqwarnings_list.
  exists errors, warnings_list. split; [exact Hd|].
  rewrite !(warning_origin _ _ _ _ _ Hd). split; split.
  - intros [[E H] | [[E H] | [(v & E & H) | [(text & Hs & H) | [[E H] | [E H]]]]]];
      try (differ2 E).
    + exact H.
    + not_unreleased_warning H.
  - intros H. now left.
  - intros [[E H] | [[E H] | [(v & E & H) | [(text & Hs & H) | [[E H] | [E H]]]]]];
      try (differ2 E).
    + exact H.
    + not_unreleased_warning H.
  - intros H. right. now left.
Qed.

(** X7: the list-marker warning is among the warnings exactly when some
    line of the text starts with [* ] or with [+ ]. *)
Theorem X7_list_marker_warning (db : unicode_db) (content : str) :
  exists errors warnings_list,
    diagnostics db content = Returns (errors, warnings_list) /\
    (In msg_list_marker warnings_list <->
     occurs_at_line_start (lit "* ") content \/
     occurs_at_line_start (lit "+ ") content).
Proof.
  pose proof (diagnostics_returns db content) as Hd.
  remember (_ ++ snd (check_versions db (find_versions db content))) as errors.
  remember (check_keepachangelog content ++ _) as warnings_list.
  clear Heqerrors Heqwarnings_list.
  exists errors, warnings_list. split; [exact Hd|].
  assert (Hsearch : re_search other_marker_re content <> None <->
                    occurs_at_line_start (lit "* ") content \/
                    occurs_at_line_start (lit "+ ") content).
  { rewrite (re_search_anchored other_marker_re
               (fun pat => pat = lit "* " \/ pat = lit "+ "))
      by apply other_marker_re_accepts.
    split.
    - intros (pat & [-> | ->] & H); [now left | now right].
    - intros [H | H]; eexists; (split; [|exact H]); [now left | now right]. }
  rewrite (warning_origin _ _ _ _ _ Hd), <- Hsearch. split.
  - intros [[E H] | [[E H] | [(v & E & H) | [(text & Hs & H) | [[E H] | [E H]]]]]];
      try (differ2 E).
    + not_unreleased_warning H.
    + exact H.
  - intros H. do 4 right. left. now split.
Qed.

(** X8: the comparison-link warning is among the warnings exactly when at
    least two sections are found and no line of the text starts with
    [[Unreleased]: http://] or [[Unreleased]: https://]. *)
Theorem X8_comparison_link_warning (db : unicode_db) (content : str) :
  exists errors warnings_list,
    diagnostics db content = Returns (errors, warnings_list) /\
    (In msg_no_link warnings_list <->
     (2 <= List.length (find_versions db content))%nat /\
     ~ occurs_at_line_start (lit "[Unreleased]: http://") content /\
     ~ occurs_at_line_start (lit "[Unreleased]: https://") content).
Proof.
  pose proof (diagnostics_returns db content) as Hd.
  remember (_ ++ snd (check_versions db (find_versions db content))) as errors.
  remember (check_keepachangelog content ++ _) as warnings_list.
  clear Heqerrors Heqwarnings_list.
  exists errors, warnings_list. split; [exact Hd|].
  assert (Hsearch : re_search unreleased_link_re content = None <->
                    ~ occurs_at_line_start (lit "[Unreleased]: http://") content /\
                    ~ occurs_at_line_start (lit "[Unreleased]: https://") content).
  { rewrite option_none_iff.
    rewrite (re_search_anchored unreleased_link_re
               (fun pat => pat = lit "[Unreleased]: http://" \/
                           pat = lit "[Unreleased]: https://"))
      by apply unreleased_link_re_accepts.
    split.
    - intros H. split; intros C; apply H; eexists; (split; [|exact C]);
        [now left | now right].
    - intros [H1 H2] (pat & [-> | ->] & C); [now apply H1 | now apply H2]. }
  rewrite (warning_origin _ _ _ _ _ Hd), <- Hsearch. split.
  - intros [[E H] | [[E H] | [(v & E & H) | [(text & Hs & H) | [[E H] | [E H]]]]]];
      try (differ2 E).
    + not_unreleased_warning H.
    + exact H.
  - intros H. do 5 right. now split.
Qed.

Lemma mem_in c (xs : list str) : mem c xs = true <-> In c xs.
Proof.
  unfold mem. rewrite existsb_exists. split.
  - intros (x & Hin & E). apply str_eqb_eq in E as ->. exact Hin.
  - intros Hin. exists c. split; [exact Hin | now apply str_eqb_eq].
Qed.

Lemma invalid_categories_in db text c :
  In c (invalid_categories_of db text) <->
  In c (findall (category_pattern db) text) /\ ~ In c VALID_CATEGORIES.
Proof.
  unfold invalid_categories_of. rewrite filter_In, negb_true_iff.
  rewrite <- (mem_in c VALID_CATEGORIES).
  destruct (mem c VALID_CATEGORIES); intuition congruence.
Qed.

(** X9: the warning that lists the valid categories is among the warnings
    exactly when the text read for the Unreleased section has a category
    header whose name is not, letter for letter, one of the six valid
    names; the warning listing those names is then among the warnings
    too. *)
Theorem X9_invalid_categories_warning (db : unicode_db) (content : str) :
  exists errors warnings_list,
    diagnostics db content = Returns (errors, warnings_list) /\
    (In msg_valid_categories warnings_list <->
     exists text c,
       re_search unreleased_re content = Some text /\
       In c (findall (category_pattern db) text) /\
       ~ In c VALID_CATEGORIES) /\
    (In msg_valid_categories warnings_list ->
     exists text,
       re_search unreleased_re content = Some text /\
       In (msg_invalid_categories (invalid_categories_of db text)) warnings_list /\
       forall c, In c (invalid_categories_of db text) <->
                 In c (findall (category_pattern db) text) /\
                 ~ In c VALID_CATEGORIES).
Proof.
  pose proof (diagnostics_returns db content) as Hd.
  remember (_ ++ snd (check_versions db (find_versions db content))) as errors.
  remember (check_keepachangelog content ++ _) as warnings_list.
  clear Heqerrors Heqwarnings_list.
  exists errors, warnings_list. split; [exact Hd|].
  assert (Hvalid : In msg_valid_categories warnings_list ->
                   exists text,
                     re_search unreleased_re content = Some text /\
                     invalid_categories_of db text <> []).
  { rewrite (warning_origin _ _ _ _ _ Hd).
    intros [[E H] | [[E H] | [(v & E & H) | [(text & Hs & H) | [[E H] | [E H]]]]]];
      try (differ2 E).
    exists text. split; [exact Hs|].
    apply in_check_unreleased_content in H
      as [[E _] | [[E _] | [[_ H] | [E _]]]]; try (differ2 E).
    exact H. }
  split; [split|].
  - intros H. destruct (Hvalid H) as (text & Hs & Hbad).
    apply nonempty_in in Hbad as [c Hc]. apply invalid_categories_in in Hc.
    now exists text, c.
  - intros (text & c & Hs & Hc). apply (warning_origin _ _ _ _ _ Hd).
    do 3 right. left. exists text. split; [exact Hs|].
    apply in_check_unreleased_content. right. right. left.
    split; [reflexivity|]. apply nonempty_in. exists c.
    now apply invalid_categories_in.
  - intros H. destruct (Hvalid H) as (text & Hs & Hbad).
    exists text. split; [exact Hs|]. split.
    + apply (warning_origin _ _ _ _ _ Hd). do 3 right. left.
      exists text. split; [exact Hs|].
      apply in_check_unreleased_content. right. left. now split.
    + intros c. apply invalid_categories_in.
Qed.

Lemma categories_found_iff db text :
  findall (category_pattern db) text <> [] <->
  exists c, is_word db c = true /\ occurs_at_line_start (lit "### " ++ [c]) text.
Proof.
  unfold findall. rewrite findall_from_nil.
  change (re_search_from (category_pattern db) true text)
    with (re_search (category_pattern db) text).
  rewrite (re_search_anchored (category_pattern db)
             (fun pat => exists c, pat = lit "### " ++ [c] /\ is_word db c = true))
    by apply category_pattern_accepts.
  split.
  - intros (pat & (c & -> & Hc) & H). now exists c.
  - intros (c & Hc & H). exists (lit "### " ++ [c]). split; [now exists c | exact H].
Qed.

Lemma entry_found_iff db text :
  re_search (entry_re db) text <> None <->
  exists c, is_space db c = false /\ occurs_at_line_start (lit "- " ++ [c]) text.
Proof.
  rewrite (re_search_anchored (entry_re db)
             (fun pat => exists c, pat = lit "- " ++ [c] /\ is_space db c = false))
    by apply entry_re_accepts.
  split.
  - intros (pat & (c & -> & Hc) & H). now exists c.
  - intros (c & Hc & H). exists (lit "- " ++ [c]). split; [now exists c | exact H].
Qed.

(** X10: of the text read for the Unreleased section.  The no-categories
    warning is among the warnings exactly when no line of that text starts
    with [### ] and a word character.  The empty-section warning is among
    them exactly when some line does, and no line of that text, wherever
    it stands, starts with [- ] and a character that is not whitespace. *)
Theorem X10_unreleased_emptiness_warnings (db : unicode_db) (content : str) :
  exists errors warnings_list,
    diagnostics db content = Returns (errors, warnings_list) /\
    (In msg_no_categories warnings_list <->
     exists text,
       re_search unreleased_re content = Some text /\
       ~ exists c, is_word db c = true /\
                   occurs_at_line_start (lit "### " ++ [c]) text) /\
    (In msg_empty_unreleased warnings_list <->
     exists text,
       re_search unreleased_re content = Some text /\
       (exists c, is_word db c = true /\
                  occurs_at_line_start (lit "### " ++ [c]) text) /\
       ~ exists c, is_space db c = false /\
                   occurs_at_line_start (lit "- " ++ [c]) text).
Proof.
  pose proof (diagnostics_returns db content) as Hd.
  remember (_ ++ snd (check_versions db (find_versions db content))) as errors.
  remember (check_keepachangelog content ++ _) as warnings_list.
  clear Heqerrors Heqwarnings_list.
  exists errors, warnings_list. split; [exact Hd|].
  rewrite !(warning_origin _ _ _ _ _ Hd). split; split.
  - intros [[E H] | [[E H] | [(v & E & H) | [(text & Hs & H) | [[E H] | [E H]]]]]];
      try (differ2 E).
    exists text. split; [exact Hs|].
    apply in_check_unreleased_content in H
      as [[_ H] | [[E _] | [[E _] | [E _]]]]; try (differ2 E).
    rewrite <- categories_found_iff. intros C. now apply C.
  - intros (text & Hs & H). do 3 right. left. exists text. split; [exact Hs|].
    apply in_check_unreleased_content. left. split; [reflexivity|].
    rewrite <- categories_found_iff in H.
    destruct (findall (category_pattern db) text); [reflexivity|].
    exfalso. apply H. discriminate.
  - intros [[E H] | [[E H] | [(v & E & H) | [(text & Hs & H) | [[E H] | [E H]]]]]];
      try (differ2 E).
    exists text. split; [exact Hs|].
    apply in_check_unreleased_content in H
      as [[E _] | [[E _] | [[E _] | (_ & Hc & He)]]]; try (differ2 E).
    rewrite <- categories_found_iff, <- entry_found_iff.
    split; [exact Hc|]. intros C. now apply C.
  - intros (text & Hs & Hc & He). do 3 right. left.
    exists text. split; [exact Hs|].
    apply in_check_unreleased_content. do 3 right.
    rewrite <- categories_found_iff in Hc. rewrite <- entry_found_iff in He.
    repeat split; [exact Hc|]. now apply option_none_iff.
Qed.

(** A match of the section pattern, with what it consumed. *)
Lemma in_version_pattern_text db bol s version date r :
  In ((version, date), r) (version_pattern db bol s) ->
  bol = true /\
  version <> [] /\
  forallb not_rbracket version = true /\
  ((date = [] /\ s = (lit "## [" ++ version ++ lit "]") ++ r) \/
   (date_shaped db date /\
    exists w1 w2,
      w1 <> [] /\ forallb (is_space db) w1 = true /\
      w2 <> [] /\ forallb (is_space db) w2 = true /\
      s = (lit "## [" ++ version ++ lit "]" ++ w1 ++ lit "-" ++ w2 ++ date) ++ r)).
Proof.
  unfold version_pattern. intros H.
  apply in_bind in H as (u & s0 & Hc & H). apply in_caret in Hc as [-> ->].
  apply in_bind in H as (h & s1 & Hh & H). apply in_literal in Hh as [-> ->].
  apply in_bind in H as (v & s2 & Hv & H).
  apply in_many1 in Hv as (-> & Hne & Hall).
  apply in_bind in H as (b & s3 & Hb & H). apply in_literal in Hb as [-> ->].
  apply in_bind in H as (o & s4 & Ho & H). apply in_ret in H as [E ->].
  injection E as <- ->.
  split; [reflexivity|]. split; [assumption|]. split; [assumption|].
  apply in_optional in Ho as [(d & -> & Hd) | [-> ->]].
  - apply in_bind in Hd as (w1 & t1 & Hw1 & Hd).
    apply in_many1 in Hw1 as (-> & Hn1 & Hs1).
    apply in_bind in Hd as (dash & t2 & Hdash & Hd).
    apply in_literal in Hdash as [-> ->].
    apply in_bind in Hd as (w2 & t3 & Hw2 & Hd).
    apply in_many1 in Hw2 as (-> & Hn2 & Hs2).
    apply in_date_re in Hd as [Hshape ->].
    right. split; [assumption|]. exists w1, w2.
    repeat split; try assumption. now rewrite <- !app_assoc.
  - left. split; [reflexivity|]. now rewrite <- !app_assoc.
Qed.

(** X4: every section found comes from a line that starts with [## [],
    the label and []]; the label is not empty and has no []] in it.
    Either no date is reported, or the date has the shape of four digits,
    dash, two digits, dash, two digits and stands after the label,
    separated from it by whitespace, a dash and whitespace. *)
Theorem X4_sections_found (db : unicode_db) (content version date : str) :
  In (version, date) (find_versions db content) ->
  version <> [] /\
  forallb not_rbracket version = true /\
  occurs_at_line_start (lit "## [" ++ version ++ lit "]") content /\
  (date = [] \/
   (date_shaped db date /\
    exists w1 w2,
      w1 <> [] /\ forallb (is_space db) w1 = true /\
      w2 <> [] /\ forallb (is_space db) w2 = true /\
      occurs_at_line_start
        (lit "## [" ++ version ++ lit "]" ++ w1 ++ lit "-" ++ w2 ++ date)
        content)).
Proof.
  unfold find_versions, findall. intros H.
  apply findall_from_in in H as (pre & s & r & -> & Hm).
  apply first_match_in, in_version_pattern_text in Hm
    as (Hbol & Hne & Hall & Hs).
  split; [assumption|]. split; [assumption|].
  destruct Hs as [[-> ->] | (Hshape & w1 & w2 & Hn1 & Hs1 & Hn2 & Hs2 & ->)].
  - split; [|now left]. now exists pre, r.
  - split.
    + exists pre, (w1 ++ lit "-" ++ w2 ++ date ++ r).
      split; [|assumption]. now rewrite <- !app_assoc.
    + right. split; [assumption|]. exists w1, w2.
      repeat split; try assumption. now exists pre, r.
Qed.

Lemma X4_sections_found_witness :
  lit "1.0.0" <> [] /\
  forallb not_rbracket (lit "1.0.0") = true /\
  occurs_at_line_start (lit "## [" ++ lit "1.0.0" ++ lit "]")
    (pystr "# Changelog\n## [1.0.0] - 2024-01-02\n") /\
  (lit "2024-01-02" = [] \/
   (date_shaped ascii_db (lit "2024-01-02") /\
    exists w1 w2,
      w1 <> [] /\ forallb (is_space ascii_db) w1 = true /\
      w2 <> [] /\ forallb (is_space ascii_db) w2 = true /\
      occurs_at_line_start
        (lit "## [" ++ lit "1.0.0" ++ lit "]" ++ w1 ++ lit "-" ++ w2
           ++ lit "2024-01-02")
        (pystr "# Changelog\n## [1.0.0] - 2024-01-02\n"))).
Proof.
  apply (X4_sections_found ascii_db
           (pystr "# Changelog\n## [1.0.0] - 2024-01-02\n")
           (lit "1.0.0") (lit "2024-01-02")).
  vm_compute. left. reflexivity.
Defined.

(** The line a run on an existing file prints last. *)
Lemma printed_last errors warnings_list :
  exists front,
    printed errors warnings_list =
    front ++ [if truthy errors
              then error_line (lit "CHANGELOG.md validation failed")
              else if truthy warnings_list
                   then warning_line (lit "CHANGELOG.md has warnings but is valid")
                   else success_line (lit "CHANGELOG.md format is valid")].
Proof.
  unfold printed. destruct (truthy errors).
  - eexists. rewrite !app_assoc.
    change [[]; error_line (lit "CHANGELOG.md validation failed")]
      with ([[]] ++ [error_line (lit "CHANGELOG.md validation failed")]).
    rewrite !app_assoc. reflexivity.
  - destruct (truthy warnings_list).
    + eexists. rewrite !app_assoc.
      change [[]; warning_line (lit "CHANGELOG.md has warnings but is valid")]
        with ([[]] ++ [warning_line (lit "CHANGELOG.md has warnings but is valid")]).
      rewrite !app_assoc. reflexivity.
    + eexists. rewrite !app_assoc.
      change [[]; success_line (lit "CHANGELOG.md format is valid")]
        with ([[]] ++ [success_line (lit "CHANGELOG.md format is valid")]).
      rewrite !app_assoc. reflexivity.
Qed.

(** X11: what is printed last agrees with the exit status, in the runs
    that get past opening the file.  When the file is missing, the last
    line printed is in the error style, starting with the red colour code,
    and the status is 1.  When the file exists and its text has been read,
    the last line printed is in the error style exactly when the status
    is 1.  (A file that exists and cannot be decoded ends the run inside
    [read_text], before anything is printed: [Path] has no such file, and
    nothing is stated about that run.) *)
Theorem X11_last_line_and_exit_status (db : unicode_db) (out : list str) :
  (startswith RED (last (snd (main db None out)) []) = true /\
   fst (main db None out) = 1) /\
  (forall content,
      startswith RED (last (snd (main db (Some content) out)) []) = true <->
      fst (main db (Some content) out) = 1).
Proof.
  split.
  - unfold main. rewrite validate_changelog_absent. cbn [fst snd].
    rewrite last_last. split; [apply startswith_app | reflexivity].
  - intros content.
    pose proof (diagnostics_returns db content) as Hd.
    remember (_ ++ snd (check_versions db (find_versions db content))) as errors.
    remember (check_keepachangelog content ++ _) as warnings_list.
    clear Heqerrors Heqwarnings_list.
    unfold main. rewrite (validate_changelog_present db content out _ _ Hd).
    destruct (printed_last errors warnings_list) as [front ->].
    cbn [fst snd]. rewrite app_assoc, last_last.
    destruct (truthy errors); [|destruct (truthy warnings_list)];
      simpl negb; cbv iota; split; try reflexivity; discriminate.
Qed.

(** * How the search for sections goes through a text, line by line *)

Lemma bind_head {A B : Type} (m : matcher A) (f : A -> matcher B) s a s1 tl y tl' :
  m s = (a, s1) :: tl -> f a s1 = y :: tl' ->
  exists tl'', bind m f s = y :: tl''.
Proof.
  unfold bind. intros -> Hf. simpl. rewrite Hf. simpl. now eexists.
Qed.

(** Greedy repetition tries the longest run first. *)
Lemma many1_head P x r :
  x <> [] -> forallb P x = true ->
  match r with [] => True | c :: _ => P c = false end ->
  exists tl, many1 P (x ++ r) = (x, r) :: tl.
Proof.
  intros Hne Hall Hr.
  assert (Hstop : many1 P r = [])
    by (destruct r as [|c r]; [reflexivity | simpl; now rewrite Hr]).
  induction x as [|c x IH]; [contradiction|].
  simpl in Hall. apply andb_prop in Hall as [Hc Hx].
  simpl. rewrite Hc. destruct x as [|c' x].
  - simpl. rewrite Hstop. simpl. now eexists.
  - destruct IH as [tl IH]; [discriminate | assumption|].
    rewrite IH. simpl. now eexists.
Qed.

Lemma findall_from_skip {A : Type} (p : bool -> matcher A) rest :
  forall m bol,
    findall_from p (List.length m) bol (m ++ rest)
    = findall_from p O (bol_after bol m) rest.
Proof.
  induction m as [|c m IH]; intros bol.
  - reflexivity.
  - simpl. apply IH.
Qed.

(** After a match that consumed [c :: m], the search resumes behind it. *)
Lemma findall_from_head {A : Type} (p : bool -> matcher A) bol c m rest x tl :
  p bol (c :: m ++ rest) = (x, rest) :: tl ->
  findall_from p O bol (c :: m ++ rest)
  = x :: findall_from p O (bol_after (c =? NL) m) rest.
Proof.
  intros Hp. simpl findall_from. rewrite Hp. simpl first_match. cbv iota.
  simpl fst. simpl snd. f_equal.
  rewrite length_app.
  replace (List.length m + List.length rest - List.length rest)%nat
    with (List.length m) by lia.
  apply findall_from_skip.
Qed.

(** A pattern anchored by [^] finds nothing in the rest of a line. *)
Lemma findall_from_rest_of_line {A : Type} (p : bool -> matcher A) more :
  (forall s, p false s = []) ->
  forall tail,
    forallb (fun c => negb (c =? NL)) tail = true ->
    findall_from p O false (tail ++ NL :: more) = findall_from p O true more.
Proof.
  intros Hp. induction tail as [|c tail IH]; intros Hnl.
  - simpl. now rewrite Hp.
  - simpl in Hnl. apply andb_prop in Hnl as [Hc Ht]. apply negb_true_iff in Hc.
    simpl. rewrite Hp. simpl. rewrite Hc. now apply IH.
Qed.

Lemma version_pattern_not_bol db s : version_pattern db false s = [].
Proof. reflexivity. Qed.

Lemma bol_after_last bol m c : bol_after bol (m ++ [c]) = (c =? NL).
Proof. revert bol. induction m as [|a m IH]; intros bol; simpl; auto. Qed.

Lemma startswith_line_end prefix more :
  forallb (fun c => negb (c =? NL)) prefix = true ->
  forall line,
    startswith prefix line = false ->
    startswith prefix (line ++ NL :: more) = false.
Proof.
  induction prefix as [|a prefix IH]; intros Hnl line H; [discriminate|].
  simpl in Hnl. apply andb_prop in Hnl as [Ha Hp]. apply negb_true_iff in Ha.
  destruct line as [|c line]; simpl in *.
  - now rewrite Ha.
  - destruct (a =? c); [|reflexivity]. simpl in *. now apply IH.
Qed.

Lemma findall_from_cons {A : Type} (p : bool -> matcher A) bol c s :
  findall_from p O bol (c :: s) =
  match first_match (p bol (c :: s)) with
  | Some r =>
      fst r :: findall_from p (List.length s - List.length (snd r)) (c =? NL) s
  | None => findall_from p O (c =? NL) s
  end.
Proof. reflexivity. Qed.

Lemma version_pattern_needs_prefix db bol s :
  startswith (lit "## [") s = false -> version_pattern db bol s = [].
Proof.
  intros H. unfold version_pattern. destruct bol; [|reflexivity].
  erewrite bind_single by reflexivity.
  apply bind_none. now apply literal_startswith.
Qed.

(** X12: a line that does not start with [## [] contributes no section:
    the sections found in a text that begins with such a line are those
    found in the text after it. *)
Theorem X12_other_line_skipped (db : unicode_db) (line more : str) :
  forallb (fun c => negb (c =? NL)) line = true ->
  startswith (lit "## [") line = false ->
  find_versions db (line ++ NL :: more) = find_versions db more.
Proof.
  intros Hnl Hstart.
  pose proof (startswith_line_end (lit "## [") more eq_refl line Hstart) as Hs.
  apply (version_pattern_needs_prefix db true) in Hs.
  unfold find_versions, findall.
  destruct line as [|c line].
  - simpl app in *. rewrite findall_from_cons, Hs. reflexivity.
  - simpl in Hnl. apply andb_prop in Hnl as [Hc Hl]. apply negb_true_iff in Hc.
    simpl app in *. rewrite findall_from_cons, Hs. simpl first_match. cbv iota.
    rewrite Hc.
    now apply findall_from_rest_of_line; [apply version_pattern_not_bol|].
Qed.

Lemma X12_other_line_skipped_witness :
  find_versions ascii_db (lit "### Added" ++ NL :: pystr "## [1.0.0] - 2024-01-02\n")
  = find_versions ascii_db (pystr "## [1.0.0] - 2024-01-02\n").
Proof.
  apply (X12_other_line_skipped ascii_db (lit "### Added")
           (pystr "## [1.0.0] - 2024-01-02\n")); reflexivity.
Defined.

Lemma bind_head_ex {A B : Type} (m : matcher A) (f : A -> matcher B) s a s1 y :
  (exists tl, m s = (a, s1) :: tl) ->
  (exists tl, f a s1 = y :: tl) ->
  exists tl, bind m f s = y :: tl.
Proof. intros [tl Hm] [tl' Hf]. eapply bind_head; eassumption. Qed.

Lemma date_shaped_first db date :
  date_shaped db date -> exists c rest, date = c :: rest /\ is_digit db c = true.
Proof.
  intros (y & m & d & -> & Ly & _ & _ & Dy & _ & _).
  destruct y as [|c y]; [discriminate|]. simpl in Dy.
  apply andb_prop in Dy as [Dc _]. now eexists c, _.
Qed.

Lemma date_shaped_last db date :
  date_shaped db date -> exists front c, date = front ++ [c] /\ is_digit db c = true.
Proof.
  intros (y & m & d & -> & _ & _ & Ld & _ & _ & Dd).
  destruct d as [|a [|b [|? ?]]]; try discriminate. simpl in Dd.
  apply andb_prop in Dd as [_ Db]. apply andb_prop in Db as [Db _].
  exists (y ++ lit "-" ++ m ++ lit "-" ++ [a]), b. split; [|assumption].
  rewrite <- !app_assoc. reflexivity.
Qed.

(** The section pattern on a dated header: the engine's first answer. *)
Lemma version_pattern_dated_head db version w1 w2 date rest :
  (forall c, is_digit db c = true -> is_space db c = false) ->
  version <> [] -> forallb not_rbracket version = true ->
  w1 <> [] -> forallb (is_space db) w1 = true ->
  w2 <> [] -> forallb (is_space db) w2 = true ->
  date_shaped db date ->
  exists tl,
    version_pattern db true
      (lit "## [" ++ version ++ lit "]" ++ w1 ++ lit "-" ++ w2 ++ date ++ rest)
    = ((version, date), rest) :: tl.
Proof.
  intros Hds Hv Hvall Hw1 Hw1all Hw2 Hw2all Hdate.
  unfold version_pattern.
  eapply bind_head_ex; [now eexists|].
  eapply bind_head_ex; [eexists; apply literal_app|].
  eapply bind_head_ex; [now apply many1_head|].
  eapply bind_head_ex; [eexists; apply literal_app|].
  eapply (bind_head_ex _ _ _ (Some date) rest).
  - unfold optional.
    assert (Hin : exists tl,
               (many1 (is_space db) ;;; literal (lit "-") ;;;
                many1 (is_space db) ;;; date_re db)
                 (w1 ++ lit "-" ++ w2 ++ date ++ rest)
               = (date, rest) :: tl).
    { eapply bind_head_ex; [now apply many1_head|].
      eapply bind_head_ex; [eexists; apply literal_app|].
      eapply bind_head_ex.
      - apply many1_head; [assumption | assumption|].
        destruct (date_shaped_first _ _ Hdate) as (c & r & -> & Hc).
        simpl. now apply Hds.
      - eexists. now apply date_re_shaped. }
    destruct Hin as [tl ->]. simpl. now eexists.
  - now eexists.
Qed.

(** X13: a dated header line.  When a text begins with [## [], a label,
    []], whitespace, a dash, whitespace and a well-shaped date, followed
    by anything up to the end of the line, the sections found are that
    label with that date, and then the sections of the text after the
    line.  (Whitespace may include line breaks; no digit of the database
    is taken to be whitespace.) *)
Theorem X13_dated_header_line
  (db : unicode_db) (version w1 w2 date tail more : str) :
  (forall c, is_digit db c = true -> is_space db c = false) ->
  version <> [] -> forallb not_rbracket version = true ->
  w1 <> [] -> forallb (is_space db) w1 = true ->
  w2 <> [] -> forallb (is_space db) w2 = true ->
  date_shaped db date ->
  forallb (fun c => negb (c =? NL)) tail = true ->
  find_versions db
    (lit "## [" ++ version ++ lit "]" ++ w1 ++ lit "-" ++ w2 ++ date
       ++ tail ++ NL :: more)
  = (version, date) :: find_versions db more.
Proof.
  intros Hds Hv Hvall Hw1 Hw1all Hw2 Hw2all Hdate Htail.
  destruct (version_pattern_dated_head db version w1 w2 date
              (tail ++ NL :: more) Hds Hv Hvall Hw1 Hw1all Hw2 Hw2all Hdate)
    as [tl Hhead].
  destruct (date_shaped_last _ _ Hdate) as (front & c & Efront & Hc).
  set (m := lit "# [" ++ version ++ lit "]" ++ w1 ++ lit "-" ++ w2 ++ front ++ [c]).
  assert (Etext : lit "## [" ++ version ++ lit "]" ++ w1 ++ lit "-" ++ w2 ++ date
                    ++ tail ++ NL :: more
                  = 35 :: m ++ tail ++ NL :: more).
  { subst m. rewrite Efront, <- !app_assoc. reflexivity. }
  rewrite Etext in Hhead |- *.
  unfold find_versions, findall.
  etransitivity;
    [exact (findall_from_head (version_pattern db) true 35 m (tail ++ NL :: more)
              (version, date) tl Hhead)|].
  f_equal.
  replace (bol_after (35 =? NL) m) with false.
  - now apply findall_from_rest_of_line; [apply version_pattern_not_bol|].
  - subst m. rewrite !app_assoc, bol_after_last.
    destruct (N.eqb_spec c NL) as [-> | _]; [discriminate Hc | reflexivity].
Qed.

Lemma ascii_digit_not_space c :
  is_digit ascii_db c = true -> is_space ascii_db c = false.
Proof.
  unfold is_digit, is_space, between. simpl.
  destruct (c <? 128); [|discriminate].
  intros H. apply andb_prop in H as [H1 H2].
  apply N.leb_le in H1. apply N.leb_le in H2.
  apply orb_false_iff. split; apply andb_false_iff; right; apply N.leb_gt; lia.
Qed.

Lemma X13_dated_header_line_witness :
  find_versions ascii_db
    (lit "## [" ++ lit "1.0.0" ++ lit "]" ++ lit " " ++ lit "-" ++ lit " "
       ++ lit "2024-01-02" ++ lit " (yanked)" ++ NL :: pystr "### Fixed\n- y\n")
  = (lit "1.0.0", lit "2024-01-02") :: find_versions ascii_db (pystr "### Fixed\n- y\n").
Proof.
  apply (X13_dated_header_line ascii_db (lit "1.0.0") (lit " ") (lit " ")
           (lit "2024-01-02") (lit " (yanked)") (pystr "### Fixed\n- y\n")).
  - exact ascii_digit_not_space.
  - discriminate.
  - reflexivity.
  - discriminate.
  - reflexivity.
  - discriminate.
  - reflexivity.
  - exists (lit "2024"), (lit "01"), (lit "02"). repeat split; reflexivity.
  - reflexivity.
Defined.

Lemma startswith_cons_ne a prefix c s :
  a <> c -> startswith (a :: prefix) (c :: s) = false.
Proof.
  intros Hne. cbn [startswith].
  destruct (N.eqb_spec a c); [contradiction | reflexivity].
Qed.

(** A run of class characters cut off a text that begins with such a run
    leaves a text that begins with the rest of the run. *)
Lemma run_suffix (P : char -> bool) after :
  match after with [] => True | c :: _ => P c = false end ->
  forall run x r,
    forallb P run = true -> forallb P x = true ->
    run ++ after = x ++ r ->
    exists k, r = k ++ after /\ forallb P k = true.
Proof.
  intros Hafter. induction run as [|a run IH]; intros x r Hrun Hx E.
  - destruct x as [|b x].
    + simpl in E. exists []. split; [now symmetry | reflexivity].
    + simpl in E, Hx. apply andb_prop in Hx as [Hb _].
      subst after. now rewrite Hb in Hafter.
  - destruct x as [|b x].
    + simpl in E. exists (a :: run). split; [now symmetry | assumption].
    + simpl in E, Hrun, Hx. injection E as <- E.
      apply andb_prop in Hrun as [_ Hrun]. apply andb_prop in Hx as [_ Hx].
      now apply (IH x r).
Qed.

(** The section pattern on an undated header followed by whitespace and
    then by something that is no dash: the engine's first answer. *)
Lemma version_pattern_undated_head db version ws after :
  version <> [] -> forallb not_rbracket version = true ->
  forallb (is_space db) ws = true ->
  match after with
  | [] => True
  | c :: _ => is_space db c = false /\ c <> 45
  end ->
  exists tl,
    version_pattern db true (lit "## [" ++ version ++ lit "]" ++ ws ++ after)
    = ((version, []), ws ++ after) :: tl.
Proof.
  intros Hv Hvall Hws Hafter.
  unfold version_pattern.
  eapply bind_head_ex; [now eexists|].
  eapply bind_head_ex; [eexists; apply literal_app|].
  eapply bind_head_ex; [now apply many1_head|].
  eapply bind_head_ex; [eexists; apply literal_app|].
  eapply (bind_head_ex _ _ _ None (ws ++ after)); [|now eexists].
  unfold optional.
  assert (Hnone : (many1 (is_space db) ;;; literal (lit "-") ;;;
                   many1 (is_space db) ;;; date_re db) (ws ++ after) = []).
  { unfold bind at 1. apply flat_map_nil. intros [x r] Hin. simpl fst. simpl snd.
    apply in_many1 in Hin as (E & _ & Hx).
    destruct (run_suffix (is_space db) after) with (run := ws) (x := x) (r := r)
      as (k & -> & Hk); try assumption.
    { destruct after as [|c after]; [exact I | apply Hafter]. }
    apply bind_none. apply literal_startswith.
    destruct k as [|c k].
    - destruct after as [|c after]; [reflexivity|].
      destruct Hafter as [_ Hc].
      apply (startswith_cons_ne 45 [] c). congruence.
    - simpl in Hk. apply andb_prop in Hk as [Hc _].
      apply (startswith_cons_ne 45 [] c). intros <-. discriminate Hc. }
  rewrite Hnone. simpl. now eexists.
Qed.

(** The search passes over whitespace. *)
Lemma findall_versions_over_whitespace db s :
  forall ws bol,
    forallb (is_space db) ws = true ->
    findall_from (version_pattern db) O bol (ws ++ s)
    = findall_from (version_pattern db) O (bol_after bol ws) s.
Proof.
  induction ws as [|c ws IH]; intros bol Hws; [reflexivity|].
  simpl in Hws. apply andb_prop in Hws as [Hc Hws].
  simpl app. rewrite findall_from_cons, version_pattern_needs_prefix.
  - simpl. now apply IH.
  - apply (startswith_cons_ne 35 (lit "# [") c). intros <-. discriminate Hc.
Qed.

(** X14: an undated header line.  When a text begins with [## [], a label
    and []], then whitespace up to a line break (the rest of the line and
    any blank lines), and what follows neither starts with whitespace nor
    with a dash, the sections found are that label with no date, and then
    the sections of what follows. *)
Theorem X14_undated_header_line (db : unicode_db) (version ws after : str) :
  version <> [] -> forallb not_rbracket version = true ->
  forallb (is_space db) ws = true ->
  match after with
  | [] => True
  | c :: _ => is_space db c = false /\ c <> 45
  end ->
  find_versions db (lit "## [" ++ version ++ lit "]" ++ ws ++ NL :: after)
  = (version, []) :: find_versions db after.
Proof.
  intros Hv Hvall Hws Hafter.
  assert (Hrun : forallb (is_space db) (ws ++ [NL]) = true)
    by (rewrite forallb_app, Hws; reflexivity).
  destruct (version_pattern_undated_head db version (ws ++ [NL]) after
              Hv Hvall Hrun Hafter) as [tl Hhead].
  set (m := lit "# [" ++ version ++ [93]).
  assert (Etext : lit "## [" ++ version ++ lit "]" ++ (ws ++ [NL]) ++ after
                  = 35 :: m ++ (ws ++ [NL]) ++ after).
  { subst m. rewrite <- !app_assoc. reflexivity. }
  rewrite Etext in Hhead.
  replace (lit "## [" ++ version ++ lit "]" ++ ws ++ NL :: after)
    with (35 :: m ++ (ws ++ [NL]) ++ after)
    by (rewrite <- Etext, <- !app_assoc; reflexivity).
  unfold find_versions, findall.
  etransitivity;
    [exact (findall_from_head (version_pattern db) true 35 m ((ws ++ [NL]) ++ after)
              (version, []) tl Hhead)|].
  f_equal.
  rewrite findall_versions_over_whitespace by assumption.
  now rewrite bol_after_last.
Qed.

Lemma X14_undated_header_line_witness :
  find_versions ascii_db
    (lit "## [" ++ lit "Unreleased" ++ lit "]" ++ lit " " ++ NL
       :: pystr "### Added\n- x\n")
  = (lit "Unreleased", []) :: find_versions ascii_db (pystr "### Added\n- x\n").
Proof.
  apply (X14_undated_header_line ascii_db (lit "Unreleased") (lit " ")
           (pystr "### Added\n- x\n")).
  - discriminate.
  - reflexivity.
  - reflexivity.
  - simpl. split; [reflexivity | discriminate].
Defined.

(** * ASCII texts and the Unicode database *)

Lemma classes_ascii db db' c :
  (c <? 128) = true ->
  is_space db c = is_space db' c /\
  is_digit db c = is_digit db' c /\
  is_word db c = is_word db' c.
Proof.
  intros H. unfold is_space, is_digit, is_word. now rewrite H.
Qed.

Lemma ascii_only_app a b :
  ascii_only (a ++ b) = true <-> ascii_only a = true /\ ascii_only b = true.
Proof. unfold ascii_only. now rewrite forallb_app, andb_true_iff. Qed.

Lemma ascii_only_cons c s :
  ascii_only (c :: s) = true <-> (c <? 128) = true /\ ascii_only s = true.
Proof. unfold ascii_only. simpl. now rewrite andb_true_iff. Qed.

Lemma many1_ascii (P Q : char -> bool) :
  (forall c, (c <? 128) = true -> P c = Q c) ->
  forall s, ascii_only s = true -> many1 P s = many1 Q s.
Proof.
  intros HPQ. induction s as [|c s IH]; intros Hs; [reflexivity|].
  apply ascii_only_cons in Hs as [Hc Hs]. simpl.
  now rewrite (HPQ c Hc), (IH Hs).
Qed.

Lemma count_ascii (P Q : char -> bool) :
  (forall c, (c <? 128) = true -> P c = Q c) ->
  forall n s, ascii_only s = true -> count n P s = count n Q s.
Proof.
  intros HPQ. induction n as [|n IH]; intros s Hs; [reflexivity|].
  destruct s as [|c s]; [reflexivity|].
  apply ascii_only_cons in Hs as [Hc Hs]. simpl.
  now rewrite (HPQ c Hc), (IH s Hs).
Qed.

Lemma one_ascii (P Q : char -> bool) :
  (forall c, (c <? 128) = true -> P c = Q c) ->
  forall s, ascii_only s = true -> one P s = one Q s.
Proof.
  intros HPQ [|c s] Hs; [reflexivity|].
  apply ascii_only_cons in Hs as [Hc Hs]. simpl. now rewrite (HPQ c Hc).
Qed.

Lemma bind_ext_in {A B : Type} (m m' : matcher A) (f f' : A -> matcher B) s :
  m s = m' s ->
  (forall a s1, In (a, s1) (m s) -> f a s1 = f' a s1) ->
  bind m f s = bind m' f' s.
Proof.
  unfold bind. intros <- Hf.
  induction (m s) as [|[a s1] l IH]; [reflexivity|].
  simpl. rewrite (Hf a s1) by now left.
  rewrite IH; [reflexivity|]. intros a' s' Hin. apply Hf. now right.
Qed.

Lemma date_re_ascii db db' s :
  ascii_only s = true -> date_re db s = date_re db' s.
Proof.
  intros Hs. unfold date_re.
  assert (Hd : forall c, (c <? 128) = true -> is_digit db c = is_digit db' c)
    by (intros c Hc; apply (classes_ascii db db' c Hc)).
  apply bind_ext_in; [now apply count_ascii|].
  intros y s1 H1. apply in_count in H1 as (-> & _ & _).
  apply ascii_only_app in Hs as [_ Hs].
  apply bind_ext_in; [reflexivity|].
  intros d1 s2 H2. apply in_literal in H2 as [-> ->].
  apply ascii_only_app in Hs as [_ Hs].
  apply bind_ext_in; [now apply count_ascii|].
  intros m s3 H3. apply in_count in H3 as (-> & _ & _).
  apply ascii_only_app in Hs as [_ Hs].
  apply bind_ext_in; [reflexivity|].
  intros d2 s4 H4. apply in_literal in H4 as [-> ->].
  apply ascii_only_app in Hs as [_ Hs].
  apply bind_ext_in; [now apply count_ascii|].
  reflexivity.
Qed.

Lemma version_pattern_ascii db db' bol s :
  ascii_only s = true -> version_pattern db bol s = version_pattern db' bol s.
Proof.
  intros Hs. unfold version_pattern.
  assert (Hsp : forall c, (c <? 128) = true -> is_space db c = is_space db' c)
    by (intros c Hc; apply (classes_ascii db db' c Hc)).
  apply bind_ext_in; [reflexivity|].
  intros u s0 H0. apply in_caret in H0 as [_ ->].
  apply bind_ext_in; [reflexivity|].
  intros h s1 H1. apply in_literal in H1 as [-> ->].
  apply ascii_only_app in Hs as [_ Hs].
  apply bind_ext_in; [reflexivity|].
  intros v s2 H2. apply in_many1 in H2 as (-> & _ & _).
  apply ascii_only_app in Hs as [_ Hs].
  apply bind_ext_in; [reflexivity|].
  intros b s3 H3. apply in_literal in H3 as [-> ->].
  apply ascii_only_app in Hs as [_ Hs].
  apply bind_ext_in; [|reflexivity].
  unfold optional. f_equal. f_equal.
  apply bind_ext_in; [now apply many1_ascii|].
  intros w1 t1 Hw1. apply in_many1 in Hw1 as (-> & _ & _).
  apply ascii_only_app in Hs as [_ Hs].
  apply bind_ext_in; [reflexivity|].
  intros dash t2 Hdash. apply in_literal in Hdash as [-> ->].
  apply ascii_only_app in Hs as [_ Hs].
  apply bind_ext_in; [now apply many1_ascii|].
  intros w2 t3 Hw2. apply in_many1 in Hw2 as (-> & _ & _).
  apply ascii_only_app in Hs as [_ Hs].
  now apply date_re_ascii.
Qed.

Lemma category_pattern_ascii db db' bol s :
  ascii_only s = true -> category_pattern db bol s = category_pattern db' bol s.
Proof.
  intros Hs. unfold category_pattern.
  apply bind_ext_in; [reflexivity|].
  intros u s0 H0. apply in_caret in H0 as [_ ->].
  apply bind_ext_in; [reflexivity|].
  intros h s1 H1. apply in_literal in H1 as [-> ->].
  apply ascii_only_app in Hs as [_ Hs].
  apply bind_ext_in; [|reflexivity].
  apply many1_ascii; [|assumption].
  intros c Hc. apply (classes_ascii db db' c Hc).
Qed.

Lemma entry_re_ascii db db' bol s :
  ascii_only s = true -> entry_re db bol s = entry_re db' bol s.
Proof.
  intros Hs. unfold entry_re.
  apply bind_ext_in; [reflexivity|].
  intros u s0 H0. apply in_caret in H0 as [_ ->].
  apply bind_ext_in; [reflexivity|].
  intros h s1 H1. apply in_literal in H1 as [-> ->].
  apply ascii_only_app in Hs as [_ Hs].
  apply bind_ext_in; [|reflexivity].
  apply one_ascii; [|assumption].
  intros c Hc. unfold is_nonspace.
  now rewrite (proj1 (classes_ascii db db' c Hc)).
Qed.

Lemma findall_from_ascii {A : Type} (p q : bool -> matcher A) :
  (forall bol s, ascii_only s = true -> p bol s = q bol s) ->
  forall s skip bol,
    ascii_only s = true -> findall_from p skip bol s = findall_from q skip bol s.
Proof.
  intros Hpq. induction s as [|c s IH]; intros skip bol Hs.
  - destruct skip; simpl; [|reflexivity]. now rewrite (Hpq bol []).
  - pose proof Hs as Hcs. apply ascii_only_cons in Hs as [_ Hs].
    destruct skip as [|k]; simpl.
    + rewrite (Hpq bol (c :: s) Hcs).
      destruct (first_match (q bol (c :: s))); now rewrite IH.
    + now apply IH.
Qed.

Lemma re_search_from_ascii {A : Type} (p q : bool -> matcher A) :
  (forall bol s, ascii_only s = true -> p bol s = q bol s) ->
  forall s bol,
    ascii_only s = true -> re_search_from p bol s = re_search_from q bol s.
Proof.
  intros Hpq. induction s as [|c s IH]; intros bol Hs.
  - simpl. now rewrite (Hpq bol []).
  - pose proof Hs as Hcs. apply ascii_only_cons in Hs as [_ Hs].
    rewrite !re_search_from_cons, (Hpq bol (c :: s) Hcs).
    destruct (first_match (q bol (c :: s))); [reflexivity|]. now apply IH.
Qed.

Lemma find_first_split sub : forall s before after,
  find_first sub s = Some (before, after) -> s = before ++ sub ++ after.
Proof.
  induction s as [|c s IH]; intros before after H.
  - simpl in H. destruct (startswith sub []) eqn:E; [|discriminate].
    injection H as <- <-. apply startswith_inv in E as [r E].
    symmetry in E. apply app_eq_nil in E as [-> ->]. reflexivity.
  - rewrite find_first_cons in H.
    destruct (startswith sub (c :: s)) eqn:E.
    + injection H as <- <-. apply startswith_inv in E as [r ->].
      now rewrite skipn_app_length.
    + destruct (find_first sub s) as [[b a]|] eqn:Ef; [|discriminate].
      injection H as <- <-. simpl. f_equal. now apply IH.
Qed.

Lemma unreleased_text_ascii content text :
  ascii_only content = true ->
  re_search unreleased_re content = Some text ->
  ascii_only text = true.
Proof.
  intros Hc. rewrite re_search_unreleased.
  destruct (find_first (lit "## [Unreleased]") content) as [[before after]|] eqn:E;
    [|discriminate].
  intros [= <-]. simpl snd.
  apply find_first_split in E. rewrite E in Hc.
  apply ascii_only_app in Hc as [_ Hc]. apply ascii_only_app in Hc as [_ Hc].
  destruct (unreleased_body_prefix after) as (rest & Hpre & _).
  rewrite Hpre in Hc. now apply ascii_only_app in Hc as [Hc _].
Qed.

Lemma find_versions_ascii db db' content :
  ascii_only content = true -> find_versions db content = find_versions db' content.
Proof.
  intros Hc. unfold find_versions, findall.
  apply findall_from_ascii; [|assumption].
  intros bol s. apply version_pattern_ascii.
Qed.

Lemma version_warnings_db db db' (versions : list (str * str)) :
  fst (check_versions db versions) = fst (check_versions db' versions).
Proof.
  unfold check_versions. destruct (negb (truthy versions)); [reflexivity|].
  simpl. apply flat_map_ext. now intros [version date].
Qed.

Lemma check_unreleased_ascii db db' content :
  ascii_only content = true ->
  check_unreleased db content = check_unreleased db' content.
Proof.
  intros Hc. unfold check_unreleased.
  destruct (re_search unreleased_re content) as [text|] eqn:E; [|reflexivity].
  pose proof (unreleased_text_ascii _ _ Hc E) as Ht.
  unfold check_unreleased_content, findall, re_search.
  rewrite (findall_from_ascii (category_pattern db) (category_pattern db'))
    by (assumption || (intros; now apply category_pattern_ascii)).
  rewrite (re_search_from_ascii (entry_re db) (entry_re db'))
    by (assumption || (intros; now apply entry_re_ascii)).
  reflexivity.
Qed.

(** X15: on a text of ASCII characters only, the diagnostics are the same
    whatever the interpreter's Unicode database says about the characters
    outside ASCII. *)
Theorem X15_ascii_text_any_database (db db' : unicode_db) (content : str) :
  ascii_only content = true ->
  diagnostics db content = diagnostics db' content.
Proof.
  intros Hc. rewrite !diagnostics_returns, !version_errors_closed.
  rewrite (find_versions_ascii db db' content Hc).
  rewrite (version_warnings_db db db').
  rewrite (check_unreleased_ascii db db' content Hc).
  reflexivity.
Qed.

Lemma X15_ascii_text_any_database_witness :
  diagnostics ascii_db
    (pystr "# Changelog\n\n## [Unreleased]\n### Added\n- x\n\n## [1.0.0] - 2024-01-02\n")
  = diagnostics
      {| uni_isspace := fun _ => true;
         uni_isdecimal := fun _ => true;
         uni_isalnum := fun _ => true |}
      (pystr "# Changelog\n\n## [Unreleased]\n### Added\n- x\n\n## [1.0.0] - 2024-01-02\n").
Proof.
  apply (X15_ascii_text_any_database ascii_db
           {| uni_isspace := fun _ => true;
              uni_isdecimal := fun _ => true;
              uni_isalnum := fun _ => true |}
           (pystr "# Changelog\n\n## [Unreleased]\n### Added\n- x\n\n## [1.0.0] - 2024-01-02\n")).
  reflexivity.
Defined.

(** X16: the date is not checked against the calendar.  For a section
    with any date of the shape four digits, dash, two digits, dash, two
    digits, whatever the digits and whatever the label, the loop over the
    sections gives no warning and no error. *)
Theorem X16_any_shaped_date_accepted (db : unicode_db) (version date : str) :
  date_shaped db date ->
  check_version db (version, date) = ([], []).
Proof.
  intros Hshape.
  pose proof (re_match_date_shaped db date Hshape) as Hmatch.
  destruct (date_shaped_first _ _ Hshape) as (c & rest & -> & _).
  unfold check_version. rewrite Hmatch. cbn [truthy negb].
  now rewrite andb_false_r.
Qed.

Lemma X16_any_shaped_date_accepted_witness :
  check_version ascii_db (lit "Unreleased", lit "0000-99-00") = ([], []).
Proof.
  apply (X16_any_shaped_date_accepted ascii_db (lit "Unreleased") (lit "0000-99-00")).
  exists (lit "0000"), (lit "99"), (lit "00"). repeat split; reflexivity.
Defined.

(** * Repeated Unreleased sections *)

(** X17: repeated Unreleased sections, as the script treats them.  When
    the search for sections finds two or more sections labelled
    [Unreleased], the only error possible is the header error, and every
    warning is one the script has a message for, none about the
    repetition.  The text [## [Unreleased]] then occurs, and the content
    rules read what follows its first occurrence, wherever in a line that
    is, up to the next occurrence of [## [], wherever in a line, or else
    to the end less one final newline; whatever comes after that [## [] is
    not read. *)
Theorem X17_repeated_unreleased_sections (db : unicode_db) (content : str) :
  (2 <= List.length (unreleased_sections (find_versions db content)))%nat ->
  exists errors warnings_list before after rest,
    diagnostics db content = Returns (errors, warnings_list) /\
    (forall e, In e errors -> e = msg_header) /\
    (forall w, In w warnings_list -> known_warning w) /\
    find_first (lit "## [Unreleased]") content = Some (before, after) /\
    after = unreleased_body after ++ rest /\
    section_ends rest = true /\
    check_unreleased db content
      = check_unreleased_content db (unreleased_body after) /\
    (forall body later,
        after = body ++ lit "## [" ++ later ->
        unreleased_body after = unreleased_body (body ++ lit "## [")).
Proof.
  intros Htwo.
  assert (Hne : unreleased_sections (find_versions db content) <> [])
    by (destruct (unreleased_sections _); [simpl in Htwo; lia | discriminate]).
  apply unreleased_sections_in in Hne as [Hex [date Hin]].
  destruct (unreleased_section_occurs _ _ _ Hin) as (before & after & Hfirst).
  destruct (unreleased_body_prefix after) as (rest & Hpre & Hend).
  pose proof (diagnostics_returns db content) as Hd.
  remember (_ ++ snd (check_versions db (find_versions db content))) as errors.
  remember (check_keepachangelog content ++ _) as warnings_list.
  exists errors, warnings_list, before, after, rest.
  split; [exact Hd|]. split; [|split; [|repeat split; try assumption]].
  - intros e He. subst errors. rewrite version_errors_closed, Hex in He.
    set (h := negb (startswith _ _)) in He. clearbody h.
    destruct (find_versions db content); [destruct Hin|].
    destruct h; simpl in He; intuition.
  - intros w. now apply (warnings_are_known _ _ _ _ _ Hd).
  - now rewrite check_unreleased_eq, Hfirst.
  - intros body later ->. apply unreleased_body_cut.
Qed.

Lemma X17_repeated_unreleased_sections_witness :
  exists errors warnings_list before after rest,
    diagnostics ascii_db
      (pystr "# Changelog\n## [Unreleased]\n### Added\n- x\n## [Unreleased]\n### Bogus\n")
      = Returns (errors, warnings_list) /\
    (forall e, In e errors -> e = msg_header) /\
    (forall w, In w warnings_list -> known_warning w) /\
    find_first (lit "## [Unreleased]")
      (pystr "# Changelog\n## [Unreleased]\n### Added\n- x\n## [Unreleased]\n### Bogus\n")
      = Some (before, after) /\
    after = unreleased_body after ++ rest /\
    section_ends rest = true /\
    check_unreleased ascii_db
      (pystr "# Changelog\n## [Unreleased]\n### Added\n- x\n## [Unreleased]\n### Bogus\n")
      = check_unreleased_content ascii_db (unreleased_body after) /\
    (forall body later,
        after = body ++ lit "## [" ++ later ->
        unreleased_body after = unreleased_body (body ++ lit "## [")).
Proof.
  apply (X17_repeated_unreleased_sections ascii_db
           (pystr "# Changelog\n## [Unreleased]\n### Added\n- x\n## [Unreleased]\n### Bogus\n")).
  vm_compute. apply le_n.
Defined.
